(** * Google Play Store Insights dashboard (stage_4/dashboard.py)

    A shallow embedding of the dashboard script: the loader, the enrichment
    step (revenue column and one-hot expansion of [economic_zone]), the
    sidebar filter and the aggregates behind each panel, followed by the
    properties of the written specification.

    Modelling conventions
    - a pandas DataFrame is a list of rows in index order; the columns the
      script reads are the fields of a record;
    - [float64] columns are the exact rationals ([Q]) their cells stand for;
      the special values pandas produces on the way (NaN for an empty mean
      or 0/0, infinities for x/0) are the extra constructors of [F64].  The
      sums, means and products of the aggregates are taken on these exact
      values.  Where a property is about the rounding of float64 itself, the
      operation is modelled in IEEE 754 binary64 on primitive floats: the
      product of line 32 ([revenue_f64]) and the conversion of an [int64] to
      float64 ([float_of_int64], [nearest_double]);
    - [int64] columns are integers ([Z]) whose sums wrap around at 64 bits;
    - Python exceptions are values of [PyExn] in a small state and error
      monad that also records what the page shows. *)

From Stdlib Require Import List String Bool ZArith QArith Lia.
From Stdlib Require Import Permutation Sorted.
From Stdlib Require Import Ascii DecimalString DecimalN DecimalPos.
From Stdlib Require Import Qround Qpower Lqa.
From Stdlib Require Import Floats.
Import ListNotations.

Local Open Scope string_scope.
Local Open Scope Z_scope.

(* ------------------------------------------------------------------ *)
(** ** Numbers *)

(** A [float64] result that may be one of the non-finite values. *)
Inductive F64 : Type :=
| Fin (q : Q)
| PosInf
| NegInf
| NaN.

(** Equality of float results, up to equality of the rationals. *)
Definition F64_eq (a b : F64) : Prop :=
  match a, b with
  | Fin x, Fin y => Qeq x y
  | PosInf, PosInf => True
  | NegInf, NegInf => True
  | NaN, NaN => True
  | _, _ => False
  end.

(** [Series.sum()] of a float column, on the exact values of its cells: 0
    for the empty column. *)
Definition sumQ (l : list Q) : Q := fold_left Qplus l 0%Q.

(** Two's complement wrap-around of [int64]. *)
Definition wrap64 (z : Z) : Z := (z + 2 ^ 63) mod 2 ^ 64 - 2 ^ 63.

Definition int64_add (a b : Z) : Z := wrap64 (a + b).

(** [Series.sum()] of an [int64] column. *)
Definition sum_int64 (l : list Z) : Z := fold_left int64_add l 0.

(** [Series.mean()], on the exact values of the cells: NaN for the empty
    column. *)
Definition mean (l : list Q) : F64 :=
  match l with
  | [] => NaN
  | _ => Fin (sumQ l / inject_Z (Z.of_nat (List.length l)))%Q
  end.

(** Float division of two finite values. *)
Definition fdiv (x y : Q) : F64 :=
  if Qeq_bool y 0 then
    (if Qeq_bool x 0 then NaN
     else if Qle_bool 0 x then PosInf else NegInf)
  else Fin (x / y)%Q.

Definition fsub (a : F64) (q : Q) : F64 :=
  match a with
  | Fin x => Fin (x - q)%Q
  | other => other
  end.

(** Multiplication by a positive finite constant. *)
Definition fscale (a : F64) (q : Q) : F64 :=
  match a with
  | Fin x => Fin (x * q)%Q
  | other => other
  end.

(** [Series.fillna(v)]. *)
Definition fillna (v : Q) (a : F64) : F64 :=
  match a with
  | NaN => Fin v
  | other => other
  end.

(* ------------------------------------------------------------------ *)
(** ** Timestamps *)

(** A [pd.Timestamp]: a calendar date and the time of day in nanoseconds. *)
Record Timestamp : Type := mkTimestamp {
  year : Z;
  month : Z;
  day : Z;
  nanos : Z
}.

(** A [datetime.date], as the date picker returns it. *)
Record Date : Type := mkDate {
  d_year : Z;
  d_month : Z;
  d_day : Z
}.

(** [pd.Timestamp(date)]: midnight of that day. *)
Definition Timestamp_of_date (d : Date) : Timestamp :=
  mkTimestamp (d_year d) (d_month d) (d_day d) 0.

Definition ts_compare (a b : Timestamp) : comparison :=
  match year a ?= year b with
  | Eq =>
      match month a ?= month b with
      | Eq =>
          match day a ?= day b with
          | Eq => nanos a ?= nanos b
          | c => c
          end
      | c => c
      end
  | c => c
  end.

Definition ts_leb (a b : Timestamp) : bool :=
  match ts_compare a b with
  | Gt => false
  | _ => true
  end.

Definition ts_eqb (a b : Timestamp) : bool :=
  match ts_compare a b with
  | Eq => true
  | _ => false
  end.

(** [Series.between(left, right)], inclusive on both sides. *)
Definition between (x left right : Timestamp) : bool :=
  ts_leb left x && ts_leb x right.

(* ------------------------------------------------------------------ *)
(** ** Strings *)

(** Python's [sub in s]. *)
Fixpoint contains (sub s : string) : bool :=
  String.prefix sub s ||
  match s with
  | EmptyString => false
  | String _ s' => contains sub s'
  end.

(** [str.replace(pat, "")]: every occurrence of [pat], scanning from the
    left, is dropped.  [skip] counts the characters of the occurrence that
    is being dropped. *)
Fixpoint remove_all_from (pat s : string) (skip : nat) : string :=
  match s with
  | EmptyString => EmptyString
  | String c s' =>
      match skip with
      | S k => remove_all_from pat s' k
      | O =>
          if String.prefix pat s
          then remove_all_from pat s' (Nat.pred (String.length pat))
          else String c (remove_all_from pat s' O)
      end
  end.

Definition str_remove (pat s : string) : string :=
  match pat with
  | EmptyString => s
  | _ => remove_all_from pat s O
  end.

(** [Series.isin(values)] on one cell. *)
Definition isin (x : string) (values : list string) : bool :=
  existsb (String.eqb x) values.

(** Lexicographic order on pairs of strings (a two-column group key). *)
Definition pair_eqb (a b : string * string) : bool :=
  String.eqb (fst a) (fst b) && String.eqb (snd a) (snd b).

Definition pair_leb (a b : string * string) : bool :=
  match String.compare (fst a) (fst b) with
  | Lt => true
  | Eq => String.leb (snd a) (snd b)
  | Gt => false
  end.

(* ------------------------------------------------------------------ *)
(** ** Sorting and grouping *)

Section StableSort.
Context {A : Type}.
Variable le : A -> A -> bool.

(** [x] enters in front of the first element it may precede, so that of
    two equal elements the one that stood first stays first. *)
Fixpoint insert_sorted (x : A) (l : list A) : list A :=
  match l with
  | [] => [x]
  | y :: l' => if le x y then x :: y :: l' else y :: insert_sorted x l'
  end.

Definition stable_sort (l : list A) : list A :=
  fold_right insert_sorted [] l.
End StableSort.

Section GroupBy.
Context {K V : Type}.
Variable keqb : K -> K -> bool.
Variable kleb : K -> K -> bool.
Variable vadd : V -> V -> V.
Variable vzero : V.

(** Adds [v] to the group of [k], opening a new group at the end when the
    key is seen for the first time; the sum of a group starts from zero. *)
Fixpoint accumulate (k : K) (v : V) (acc : list (K * V)) : list (K * V) :=
  match acc with
  | [] => [(k, vadd vzero v)]
  | (k', v') :: rest =>
      if keqb k k' then (k', vadd v' v) :: rest
      else (k', v') :: accumulate k v rest
  end.

(** One group per distinct key, in order of first appearance, each with
    the sum of its values taken in row order. *)
Definition factorize_sum (l : list (K * V)) : list (K * V) :=
  fold_left (fun acc kv => accumulate (fst kv) (snd kv) acc) l [].

(** [df.groupby(key)[col].sum()]: the groups ordered by key. *)
Definition groupby_sum (l : list (K * V)) : list (K * V) :=
  stable_sort (fun a b => kleb (fst a) (fst b)) (factorize_sum l).
End GroupBy.

(** [Series.unique()]: distinct values in order of first appearance. *)
Fixpoint unique (l : list string) : list string :=
  match l with
  | [] => []
  | x :: l' => x :: filter (fun y => negb (String.eqb x y)) (unique l')
  end.

(** [Series.nlargest(n)] on a keyed series: the [n] largest values in
    descending order.  Entries of equal value are kept in series order
    here; the properties below do not depend on how ties are ordered. *)
Definition nlargest {K : Type} (n : nat) (s : list (K * Q)) : list (K * Q) :=
  firstn n (stable_sort (fun a b => Qle_bool (snd b) (snd a)) s).

(** [Series.pct_change()]: NaN for the first entry, then the ratio to the
    previous entry minus one. *)
Fixpoint pct_change_from {K : Type} (prev : Q) (s : list (K * Q))
  : list (K * F64) :=
  match s with
  | [] => []
  | (k, v) :: s' => (k, fsub (fdiv v prev) 1) :: pct_change_from v s'
  end.

Definition pct_change {K : Type} (s : list (K * Q)) : list (K * F64) :=
  match s with
  | [] => []
  | (k, v) :: s' => (k, NaN) :: pct_change_from v s'
  end.

(** [s.pct_change().fillna(0) * 100] on a series of yearly sums. *)
Definition growth_series (s : list (Z * Q)) : list (Z * F64) :=
  map (fun p => (fst p, fscale (fillna 0 (snd p)) 100)) (pct_change s).

(* ------------------------------------------------------------------ *)
(** ** Data model *)

(** One record of the data file, without its [economic_zone] cell. *)
Record Row : Type := mkRow {
  Category : string;
  App_Name : string;
  Developer_Id : string;
  geo_region : string;
  Installs : Z;
  Price : Q;
  Rating : Q;
  Released : Timestamp
}.

(** The table read from [data/data.parquet], with the columns of the data
    model and no null cell: the [economic_zone] column is either there,
    with one text value per row, or not in the file at all. *)
Inductive Source : Type :=
| WithZone (recs : list (Row * string))
| WithoutZone (recs : list Row).

(** A row after preprocessing: the original cells, the [revenue] cell and
    the cells of the indicator columns, by column name. *)
Record ERow : Type := mkERow {
  base : Row;
  revenue : Q;
  flags : list (string * bool)
}.

(** The preprocessed DataFrame: the names of the indicator columns it has
    and its rows.  A boolean-indexed view keeps the columns of its frame. *)
Record Frame : Type := mkFrame {
  zone_dummies : list string;
  body : list ERow
}.

Definition base_columns : list string :=
  ["Category"; "App Name"; "Developer Id"; "geo_region"; "Installs";
   "Price"; "Rating"; "Released"].

(** [df.columns] after preprocessing. *)
Definition columns (df : Frame) : list string :=
  (base_columns ++ ["revenue"] ++ zone_dummies df)%list.

(** The options of the zone multiselect. *)
Inductive Zone : Type := Developed | Emerging | Frontier | Other.

Definition zone_options : list Zone := [Developed; Emerging; Frontier; Other].

Definition zone_name (z : Zone) : string :=
  match z with
  | Developed => "Developed"
  | Emerging => "Emerging"
  | Frontier => "Frontier"
  | Other => "Other"
  end.

Definition zone_mapping (z : Zone) : string :=
  match z with
  | Developed => "economic_zone_Developed"
  | Emerging => "economic_zone_Emerging"
  | Frontier => "economic_zone_Frontier"
  | Other => "economic_zone_Other"
  end.

(** What the sidebar widgets return. *)
Record Selection : Type := mkSelection {
  category_filter : list string;
  region_filter : list string;
  zone_filter : list Zone;
  date_range : Date * Date
}.

(* ------------------------------------------------------------------ *)
(** ** Page effects and exceptions *)

Inductive PyExn : Type :=
| TypeError (msg : string)
| ValueError
| IndexError (msg : string).

Inductive Shown : Type :=
| st_write (text : string)
| st_error (text : string).

(** A computation of the script: it extends what the page shows and either
    raises or returns. *)
Definition Py (A : Type) : Type := list Shown -> list Shown * (PyExn + A).

Definition ret {A : Type} (a : A) : Py A := fun page => (page, inr a).

Definition raise {A : Type} (e : PyExn) : Py A := fun page => (page, inl e).

Definition show (s : Shown) : Py unit := fun page => ((page ++ [s])%list, inr tt).

Definition bind {A B : Type} (m : Py A) (f : A -> Py B) : Py B :=
  fun page =>
    match m page with
    | (page', inl e) => (page', inl e)
    | (page', inr a) => f a page'
    end.

Notation "x <- m ;; f" := (bind m (fun x => f))
  (at level 61, m at next level, right associativity).
Notation "m ;;; f" := (bind m (fun _ => f))
  (at level 61, right associativity).

(* ------------------------------------------------------------------ *)
(** ** Loader *)

(** [load_data()]: [file] is the content of the data file when it exists. *)
Definition load_data (data_file_path : string) (file : option Source)
  : Py (option Source) :=
  match file with
  | Some t => ret (Some t)
  | None =>
      show (st_error ("File not found at " ++ data_file_path)) ;;;
      ret None
  end.

(** Subscripting the result of [load_data()], as [df['Installs']] does. *)
Definition getitem (df : option Source) : Py Source :=
  match df with
  | Some t => ret t
  | None => raise (TypeError "'NoneType' object is not subscriptable")
  end.

(* ------------------------------------------------------------------ *)
(** ** Enricher *)

(** [df['Installs'] * df['Price']] on one row, on the exact values of the
    two cells.  The float64 product the script stores is [revenue_f64]
    below, which rounds this value. *)
Definition revenue_of (r : Row) : Q := (inject_Z (Installs r) * Price r)%Q.

(** The conversion of an [int64] cell to float64 that the product of an
    integer column and a float column starts with: the nearest double, ties
    to the even mantissa. *)
Definition float_of_int64 (z : Z) : float :=
  SF2Prim (binary_normalize prec emax z 0 false).

(** Line 32 on one row, in binary64 arithmetic. *)
Definition revenue_f64 (installs : Z) (price : float) : float :=
  PrimFloat.mul (float_of_int64 installs) price.

(** Line 32 on the two columns: the product is taken cell by cell. *)
Definition revenue_column (installs : list Z) (price : list float)
  : list float :=
  map (fun c => revenue_f64 (fst c) (snd c)) (combine installs price).

(** The rational a finite double stands for. *)
Definition exact_value (x : float) : option Q :=
  match Prim2SF x with
  | S754_zero _ => Some 0%Q
  | S754_finite s m e =>
      Some (inject_Z (if s then Z.neg m else Z.pos m) * Qpower 2 e)%Q
  | _ => None
  end.

(** A double as a value of [F64].  The sign of a zero is not kept; an
    integer is never converted to the negative zero. *)
Definition F64_of_float (x : float) : F64 :=
  match Prim2SF x with
  | S754_zero _ => Fin 0
  | S754_finite s m e =>
      Fin (inject_Z (if s then Z.neg m else Z.pos m) * Qpower 2 e)
  | S754_infinity s => if s then NegInf else PosInf
  | S754_nan => NaN
  end.

(** Whether cutting the last [k] bits of [a] rounds up: the bits cut are
    more than half a unit of the bits kept, or exactly half and the bits
    kept are odd. *)
Definition round_up (a k : Z) : bool :=
  (2 ^ (k - 1) <? a mod 2 ^ k) ||
  ((2 ^ (k - 1) =? a mod 2 ^ k) && Z.odd (a / 2 ^ k)).

(** The double nearest to an integer, as an integer: the value of
    [float_of_int64] written with integer arithmetic.  Integers up to 2^53
    are doubles; beyond, the 53 leading bits are kept and the rest is
    rounded, ties to the even mantissa. *)
Definition nearest_double (n : Z) : Z :=
  let a := Z.abs n in
  if a <? 2 ^ 53 then n
  else
    let e := Z.log2 a - 52 in
    let m := a / 2 ^ e in
    Z.sgn n * ((if round_up a e then m + 1 else m) * 2 ^ e).

Definition zone_prefix : string := "economic_zone_".

(** The values [pd.get_dummies] makes columns for: the distinct values of
    the column, sorted. *)
Definition dummy_values (zs : list string) : list string :=
  stable_sort String.leb (unique zs).

(** The indicator cells of a row whose zone is [z]. *)
Definition dummy_cells (vals : list string) (z : string)
  : list (string * bool) :=
  map (fun v => (zone_prefix ++ v, String.eqb z v)) vals.

(** A row of a table with the zone column, after preprocessing. *)
Definition enrich_zoned (vals : list string) (rz : Row * string) : ERow :=
  {| base := fst rz;
     revenue := revenue_of (fst rz);
     flags := dummy_cells vals (snd rz) |}.

(** A row of a table without the zone column, after preprocessing. *)
Definition enrich_plain (r : Row) : ERow :=
  {| base := r; revenue := revenue_of r; flags := [] |}.

(** Lines 32 to 36: the revenue column, then
    [pd.get_dummies(df, columns=['economic_zone'])] when the column is in
    the table. *)
Definition enrich (t : Source) : Frame :=
  match t with
  | WithZone recs =>
      let vals := dummy_values (map snd recs) in
      {| zone_dummies := map (String.append zone_prefix) vals;
         body := map (enrich_zoned vals) recs |}
  | WithoutZone recs =>
      {| zone_dummies := []; body := map enrich_plain recs |}
  end.

(* ------------------------------------------------------------------ *)
(** ** Filter engine *)

(** The cell of row [r] in the indicator column [c]. *)
Definition flag (c : string) (r : ERow) : bool :=
  match find (fun p => String.eqb (fst p) c) (flags r) with
  | Some p => snd p
  | None => false
  end.

(** Line 53: the indicator columns of the selected zones that the frame
    has. *)
Definition zone_columns (df : Frame) (sel : Selection) : list string :=
  filter (fun c => existsb (String.eqb c) (columns df))
         (map zone_mapping (zone_filter sel)).

(** [df[cols].any(axis=1)] on one row. *)
Definition any_flag (cols : list string) (r : ERow) : bool :=
  existsb (fun c => flag c r) cols.

(** Lines 57 to 60: the boolean mask, row by row. *)
Definition row_mask (df : Frame) (sel : Selection) (r : ERow) : bool :=
  isin (Category (base r)) (category_filter sel) &&
  isin (geo_region (base r)) (region_filter sel) &&
  (match zone_columns df sel with
   | [] => true
   | cols => any_flag cols r
   end) &&
  between (Released (base r))
          (Timestamp_of_date (fst (date_range sel)))
          (Timestamp_of_date (snd (date_range sel))).

Definition df_filtered (df : Frame) (sel : Selection) : Frame :=
  {| zone_dummies := zone_dummies df;
     body := filter (row_mask df sel) (body df) |}.

(* ------------------------------------------------------------------ *)
(** ** Aggregator *)

(** A row of the opportunity table. *)
Record Opportunity : Type := mkOpportunity {
  o_region : string;
  o_category : string;
  o_revenue : Q;
  o_installs : Z;
  score : Q
}.

(** The three KPI numbers and the tables handed to the seven charts. *)
Record Panels : Type := mkPanels {
  p_total_revenue : Q;
  p_total_installs : Z;
  p_avg_rating : F64;
  p_category_revenue : list (string * Q);
  p_top_apps_region : list ((string * string) * Q);
  p_top_devs : list (string * Q);
  p_zone_revenue : list (string * Z);
  p_market_share : list (string * Q);
  p_yearly_growth : list (Z * F64);
  p_top_opportunities : list Opportunity
}.

Section Aggregates.
Variable view : Frame.

Definition total_revenue : Q := sumQ (map revenue (body view)).

Definition total_installs : Z :=
  sum_int64 (map (fun r => Installs (base r)) (body view)).

Definition avg_rating : F64 :=
  mean (map (fun r => Rating (base r)) (body view)).

(** Line 90. *)
Definition category_revenue : list (string * Q) :=
  groupby_sum String.eqb String.leb Qplus 0%Q
    (map (fun r => (Category (base r), revenue r)) (body view)).

(** Lines 99 and 100: region ascending, then revenue descending. *)
Definition top_apps_region : list ((string * string) * Q) :=
  stable_sort
    (fun a b =>
       match String.compare (fst (fst a)) (fst (fst b)) with
       | Lt => true
       | Eq => Qle_bool (snd b) (snd a)
       | Gt => false
       end)
    (groupby_sum pair_eqb pair_leb Qplus 0%Q
       (map (fun r => ((geo_region (base r), App_Name (base r)), revenue r))
            (body view))).

(** The revenue of each developer, before the ten largest are taken. *)
Definition developer_revenue : list (string * Q) :=
  groupby_sum String.eqb String.leb Qplus 0%Q
    (map (fun r => (Developer_Id (base r), revenue r)) (body view)).

(** Line 107. *)
Definition top_devs : list (string * Q) :=
  nlargest 10 developer_revenue.

(** Line 116. *)
Definition zone_revenue_cols : list string :=
  filter (contains zone_prefix) (columns view).

(** The sum of a boolean column: the number of its true cells. *)
Definition sum_flags (c : string) : Z :=
  Z.of_nat (List.length (filter (flag c) (body view))).

(** Lines 117 to 119. *)
Definition zone_revenue : list (string * Z) :=
  map (fun c => (str_remove zone_prefix c, sum_flags c)) zone_revenue_cols.

(** Line 125. *)
Definition market_share : list (string * Q) :=
  groupby_sum String.eqb String.leb Qplus 0%Q
    (map (fun r => (geo_region (base r), revenue r)) (body view)).

(** Line 134. *)
Definition historical_revenue : list (Timestamp * Q) :=
  groupby_sum ts_eqb ts_leb Qplus 0%Q
    (map (fun r => (Released (base r), revenue r)) (body view)).

(** Line 135 and the grouped sum of line 136. *)
Definition yearly_revenue : list (Z * Q) :=
  groupby_sum Z.eqb Z.leb Qplus 0%Q
    (map (fun p => (year (fst p), snd p)) historical_revenue).

(** Line 136. *)
Definition yearly_growth : list (Z * F64) :=
  growth_series yearly_revenue.

(** Line 142: the two sums of each (region, category) group. *)
Definition opportunity_sums : list ((string * string) * (Q * Z)) :=
  groupby_sum pair_eqb pair_leb
    (fun a b => (Qplus (fst a) (fst b), int64_add (snd a) (snd b)))
    (0%Q, 0)
    (map (fun r => ((geo_region (base r), Category (base r)),
                    (revenue r, Installs (base r))))
         (body view)).

(** Lines 143 to 145. *)
Definition opportunity_score : list Opportunity :=
  map (fun g =>
         {| o_region := fst (fst g);
            o_category := snd (fst g);
            o_revenue := fst (snd g);
            o_installs := snd (snd g);
            score := ((1 # 2) * fst (snd g)
                      + (1 # 2) * inject_Z (snd (snd g)))%Q |})
      opportunity_sums.

(** Line 146: [sort_values('score', ascending=False).head(10)].  Rows of
    equal score are kept in group order here; the properties below do not
    depend on how ties are ordered. *)
Definition top_opportunities : list Opportunity :=
  firstn 10
    (stable_sort (fun a b => Qle_bool (score b) (score a))
                 opportunity_score).

Definition aggregate : Panels :=
  {| p_total_revenue := total_revenue;
     p_total_installs := total_installs;
     p_avg_rating := avg_rating;
     p_category_revenue := category_revenue;
     p_top_apps_region := top_apps_region;
     p_top_devs := top_devs;
     p_zone_revenue := zone_revenue;
     p_market_share := market_share;
     p_yearly_growth := yearly_growth;
     p_top_opportunities := top_opportunities |}.
End Aggregates.

(* ------------------------------------------------------------------ *)
(** ** The script *)

(** What the four sidebar widgets hand back to the script: the three
    multiselects, and the tuple of the date picker, which holds fewer than
    two dates while the user is picking a range. *)
Record Sidebar : Type := mkSidebar {
  picked_categories : list string;
  picked_regions : list string;
  picked_zones : list Zone;
  picked_dates : list Date
}.

(** The selection the mask works with, once both dates are there. *)
Definition selection_with (picked : Sidebar) (first last : Date) : Selection :=
  {| category_filter := picked_categories picked;
     region_filter := picked_regions picked;
     zone_filter := picked_zones picked;
     date_range := (first, last) |}.

(** Lines 47 to 51 and the two subscripts of line 60.  Line 51 asks for the
    earliest and the latest release date to set up the date picker: a table
    without rows has none and the line raises.  Line 60 reads
    [date_range[0]] and [date_range[1]]. *)
Definition sidebar (df : Frame) (picked : Sidebar) : Py Selection :=
  match body df with
  | [] => raise ValueError
  | _ :: _ =>
      match picked_dates picked with
      | first :: last :: _ => ret (selection_with picked first last)
      | _ => raise (IndexError "tuple index out of range")
      end
  end.

(** One run of the script, from the path message of line 17 to the last
    chart: [file] is the data file when it exists, [picked] what the user
    has set in the sidebar.  The chart calls belong to the UI toolkit; the
    run hands the toolkit the [Panels]. *)
Definition dashboard (data_file_path : string) (file : option Source)
  (picked : Sidebar) : Py Panels :=
  show (st_write ("Looking for the data file at: " ++ data_file_path)) ;;;
  df <- load_data data_file_path file ;;
  t <- getitem df ;;
  sel <- sidebar (enrich t) picked ;;
  ret (aggregate (df_filtered (enrich t) sel)).

(** A run that reached the end of the script. *)
Definition completed {A : Type} (out : list Shown * (PyExn + A)) : bool :=
  match snd out with
  | inr _ => true
  | inl _ => false
  end.

(* ------------------------------------------------------------------ *)
(** ** The statements of the specification *)

(** [l1] is [l2] with some of its rows left out, the others in place. *)
Inductive subseq {A : Type} : list A -> list A -> Prop :=
| subseq_nil : subseq [] []
| subseq_skip : forall x l1 l2, subseq l1 l2 -> subseq l1 (x :: l2)
| subseq_keep : forall x l1 l2, subseq l1 l2 -> subseq (x :: l1) (x :: l2).

Definition ts_le (a b : Timestamp) : Prop := ts_compare a b <> Gt.

(** The filter contract as the specification words it: the zone term asks
    for a true indicator among the selected zones, and holds for free only
    when the frame has no indicator column at all. *)
Definition spec_mask (df : Frame) (sel : Selection) (r : ERow) : bool :=
  isin (Category (base r)) (category_filter sel) &&
  isin (geo_region (base r)) (region_filter sel) &&
  (match zone_dummies df with
   | [] => true
   | _ => existsb (fun z => flag (zone_mapping z) r) (zone_filter sel)
   end) &&
  between (Released (base r))
          (Timestamp_of_date (fst (date_range sel)))
          (Timestamp_of_date (snd (date_range sel))).

(** The shape the specification gives the top-developers list. *)
Definition spec_top_devs_shape (l : list (string * Q)) : Prop :=
  (List.length l <= 10)%nat /\
  StronglySorted (fun a b => (snd b < snd a)%Q) l /\
  NoDup (map fst l).

(** The shape the list has: equal sums may stand next to each other. *)
Definition top_devs_shape (l : list (string * Q)) : Prop :=
  (List.length l <= 10)%nat /\
  StronglySorted (fun a b => (snd b <= snd a)%Q) l /\
  NoDup (map fst l).

(** The panels of a view without rows: zeros, NaN and empty tables. *)
Definition empty_panels (view : Frame) : Panels :=
  {| p_total_revenue := 0%Q;
     p_total_installs := 0;
     p_avg_rating := NaN;
     p_category_revenue := [];
     p_top_apps_region := [];
     p_top_devs := [];
     p_zone_revenue :=
       map (fun c => (str_remove zone_prefix c, 0)) (zone_revenue_cols view);
     p_market_share := [];
     p_yearly_growth := [];
     p_top_opportunities := [] |}.

(** The claim on revenue as the specification words it: the value of the
    revenue cell is the exact product of the values of the two cells. *)
Definition spec_revenue_exact : Prop :=
  forall (installs : Z) (price : float) (p : Q),
    exact_value price = Some p ->
    exists q, exact_value (revenue_f64 installs price) = Some q /\
              (q == inject_Z installs * p)%Q.

(** The claim on emptied multiselects as the specification words it:
    emptying any one of the three empties the view. *)
Definition spec_emptied_claim : Prop :=
  forall (t : Source) (sel : Selection),
    category_filter sel = [] \/ region_filter sel = [] \/
    zone_filter sel = [] ->
    body (df_filtered (enrich t) sel) = [].

(** The mask without a zone term. *)
Definition mask_without_zones (sel : Selection) (r : ERow) : bool :=
  isin (Category (base r)) (category_filter sel) &&
  isin (geo_region (base r)) (region_filter sel) &&
  true &&
  between (Released (base r))
          (Timestamp_of_date (fst (date_range sel)))
          (Timestamp_of_date (snd (date_range sel))).

(** The sum of the indicator cells of a row, over the indicator columns of
    its frame. *)
Definition indicator_sum (df : Frame) (r : ERow) : Z :=
  fold_right (fun c acc => Z.b2z (flag c r) + acc) 0 (zone_dummies df).

(** The records of a table that are in zone [v] and pass the mask of the
    sidebar selection. *)
Definition filtered_in_zone (recs : list (Row * string)) (sel : Selection)
  (v : string) : list (Row * string) :=
  filter (fun rz => String.eqb (snd rz) v)
    (filter (fun rz => row_mask (enrich (WithZone recs)) sel
                         (enrich_zoned (dummy_values (map snd recs)) rz))
            recs).

(** What the label of the zone panel promises: the revenue of the rows of
    [view] whose cell in the indicator column [c] is true. *)
Definition zone_revenue_sum (view : Frame) (c : string) : Q :=
  sumQ (map revenue (filter (flag c) (body view))).

(** Two growth series with the same years and equal values. *)
Definition series_eq (s1 s2 : list (Z * F64)) : Prop :=
  Forall2 (fun a b => fst a = fst b /\ F64_eq (snd a) (snd b)) s1 s2.

(** The rows of [view] of a developer, a region and category, a year. *)
Definition rows_of_developer (view : Frame) (d : string) : list ERow :=
  filter (fun r => String.eqb (Developer_Id (base r)) d) (body view).

Definition rows_of_market (view : Frame) (k : string * string) : list ERow :=
  filter (fun r => pair_eqb (geo_region (base r), Category (base r)) k)
         (body view).

Definition rows_of_year (view : Frame) (y : Z) : list ERow :=
  filter (fun r => Z.eqb (year (Released (base r))) y) (body view).

(** The table of the scenarios of the specification. *)
Definition scenario_table : Source :=
  WithZone
    [ (mkRow "Games" "App A" "Dev A" "NA" 100 0 (9 # 2)
             (mkTimestamp 2021 1 1 0), "Developed");
      (mkRow "Games" "App B" "Dev B" "EU" 10 5 3
             (mkTimestamp 2022 6 1 0), "Emerging") ].

(** The second row of the scenario table, after preprocessing. *)
Definition scenario_row_B : ERow :=
  enrich_zoned ["Developed"; "Emerging"]
    (mkRow "Games" "App B" "Dev B" "EU" 10 5 3 (mkTimestamp 2022 6 1 0),
     "Emerging").

(** Two free apps of two developers: both developers have revenue 0. *)
Definition free_apps_table : Source :=
  WithoutZone
    [ mkRow "Tools" "App A" "Dev A" "NA" 100 0 4 (mkTimestamp 2021 1 1 0);
      mkRow "Tools" "App B" "Dev B" "NA" 500 0 3 (mkTimestamp 2021 3 1 0) ].

(** A table whose revenue is 50 in 2021 and 20 + 80 in 2022. *)
Definition growth_table : Source :=
  WithoutZone
    [ mkRow "Games" "App A" "Dev A" "NA" 10 5 4 (mkTimestamp 2021 1 1 0);
      mkRow "Games" "App B" "Dev B" "EU" 4 5 3 (mkTimestamp 2022 6 1 0);
      mkRow "Tools" "App C" "Dev A" "EU" 16 5 5 (mkTimestamp 2022 9 30 0) ].

(** Every category, region and zone selected, all dates from 2000 to 2100. *)
Definition select_all (categories regions : list string) : Selection :=
  {| category_filter := categories;
     region_filter := regions;
     zone_filter := zone_options;
     date_range := (mkDate 2000 1 1, mkDate 2100 12 31) |}.

Definition scenario_selection (zones : list Zone) (first last : Date)
  : Selection :=
  {| category_filter := ["Games"];
     region_filter := ["NA"; "EU"];
     zone_filter := zones;
     date_range := (first, last) |}.

(* ------------------------------------------------------------------ *)
(** ** Sidebar defaults *)

Definition ts_min (a b : Timestamp) : Timestamp := if ts_leb a b then a else b.

Definition ts_max (a b : Timestamp) : Timestamp := if ts_leb a b then b else a.

(** [df['Released'].min()]: there is no timestamp to return for a table
    without rows. *)
Definition released_min (df : Frame) : option Timestamp :=
  match map (fun r => Released (base r)) (body df) with
  | [] => None
  | t :: ts => Some (fold_left ts_min ts t)
  end.

(** [df['Released'].max()]. *)
Definition released_max (df : Frame) : option Timestamp :=
  match map (fun r => Released (base r)) (body df) with
  | [] => None
  | t :: ts => Some (fold_left ts_max ts t)
  end.

(** [Timestamp.date()]: the calendar day, without the time of day. *)
Definition date_of (t : Timestamp) : Date :=
  mkDate (year t) (month t) (day t).

(** Lines 47 to 51: what the four widgets return as long as the user has
    touched none of them, for a table with at least one row. *)
Definition default_selection (df : Frame) : option Selection :=
  match released_min df, released_max df with
  | Some first, Some last =>
      Some {| category_filter :=
                unique (map (fun r => Category (base r)) (body df));
              region_filter :=
                unique (map (fun r => geo_region (base r)) (body df));
              zone_filter := zone_options;
              date_range := (date_of first, date_of last) |}
  | _, _ => None
  end.

(* ------------------------------------------------------------------ *)
(** ** Presenter *)

(** Rounding to the nearest integer, ties to the even one, as the [f]
    presentation type rounds. *)
Definition round_half_even (q : Q) : Z :=
  let f := Qfloor q in
  match Qcompare (q - inject_Z f) (1 # 2) with
  | Lt => f
  | Gt => f + 1
  | Eq => if Z.even f then f else f + 1
  end.

(** The decimal digits of a natural number, most significant first. *)
Definition digits (n : N) : list ascii :=
  list_ascii_of_string (NilEmpty.string_of_uint (N.to_uint n)).

(** The [,] option on digits given least significant first: a comma after
    every third digit that has a digit after it. *)
Fixpoint commas_rev (l : list ascii) : list ascii :=
  match l with
  | a :: b :: c :: (_ :: _) as rest =>
      a :: b :: c :: ","%char :: commas_rev rest
  | _ => l
  end.

Definition group_thousands (ds : list ascii) : list ascii :=
  rev (commas_rev (rev ds)).

(** The sign the [f] presentation type prints: a minus for negative values,
    also when they round to zero. *)
Definition sign_of (q : Q) : list ascii :=
  if Qle_bool 0 q then [] else ["-"%char].

(** [f"{q:,.0f}"] on a finite value. *)
Definition format_finite (q : Q) : string :=
  string_of_list_ascii
    (sign_of q ++
     group_thousands (digits (Z.to_N (Z.abs (round_half_even q)))))%list.

(** Lines 64 and 65: [format_number(n)]. *)
Definition format_number (n : F64) : string :=
  match n with
  | Fin q => format_finite q
  | PosInf => "inf"
  | NegInf => "-inf"
  | NaN => "nan"
  end.

(** [f"{x:.2f}"]: the value rounded to hundredths, with two digits after
    the point. *)
Definition format_2f (x : F64) : string :=
  match x with
  | Fin q =>
      let h := Z.to_N (Z.abs (round_half_even (q * 100))) in
      string_of_list_ascii
        (sign_of q ++ digits (h / 100) ++ "."%char ::
         digits ((h mod 100) / 10) ++ digits (h mod 10))%list
  | PosInf => "inf"
  | NegInf => "-inf"
  | NaN => "nan"
  end.

(** [format_number(n)] on an [int64], as line 80 calls it: the [f]
    presentation type converts the integer to float64 and prints that. *)
Definition format_int64 (n : Z) : string :=
  format_number (F64_of_float (float_of_int64 n)).

(** The values of the three [st.metric] calls of lines 74 to 84. *)
Record Metrics : Type := mkMetrics {
  m_total_revenue : string;
  m_total_installs : string;
  m_avg_rating : string
}.

Definition metrics (view : Frame) : Metrics :=
  {| m_total_revenue := "$" ++ format_number (Fin (total_revenue view));
     m_total_installs := format_int64 (total_installs view);
     m_avg_rating := format_2f (avg_rating view) |}.

(* ------------------------------------------------------------------ *)
(** ** Reading the displayed numbers back *)

Definition drop_commas (l : list ascii) : list ascii :=
  filter (fun c => negb (Ascii.eqb c ","%char)) l.

Definition parse_digits (l : list ascii) : option N :=
  option_map N.of_uint (NilEmpty.uint_of_string (string_of_list_ascii l)).

(** An integer written with an optional minus sign. *)
Definition parse_int (l : list ascii) : option Z :=
  match l with
  | c :: l' =>
      if Ascii.eqb c "-"%char
      then option_map (fun n => - Z.of_N n) (parse_digits l')
      else option_map Z.of_N (parse_digits l)
  | [] => option_map Z.of_N (parse_digits l)
  end.

Definition is_digit (c : ascii) : bool :=
  existsb (Ascii.eqb c)
    ["0"; "1"; "2"; "3"; "4"; "5"; "6"; "7"; "8"; "9"]%char.

(** The sum of a list of integers, without wrap-around. *)
Definition sumZ (l : list Z) : Z := fold_right Z.add 0 l.

(** The order in which [top_apps_region] lists its rows. *)
Definition region_then_revenue (a b : (string * string) * Q) : Prop :=
  String.compare (fst (fst a)) (fst (fst b)) = Lt \/
  (fst (fst a) = fst (fst b) /\ (snd b <= snd a)%Q).

(** The rows of [view] of a category, a region, an app in a region. *)
Definition rows_of_category (view : Frame) (c : string) : list ERow :=
  filter (fun r => String.eqb (Category (base r)) c) (body view).

Definition rows_of_region (view : Frame) (g : string) : list ERow :=
  filter (fun r => String.eqb (geo_region (base r)) g) (body view).

Definition rows_of_app (view : Frame) (k : string * string) : list ERow :=
  filter (fun r => pair_eqb (geo_region (base r), App_Name (base r)) k)
         (body view).

(** [sel'] selects at least the categories and regions of [sel], the same
    zones, and a date interval that contains the one of [sel]. *)
Definition widens (sel sel' : Selection) : Prop :=
  incl (category_filter sel) (category_filter sel') /\
  incl (region_filter sel) (region_filter sel') /\
  zone_filter sel = zone_filter sel' /\
  ts_le (Timestamp_of_date (fst (date_range sel')))
        (Timestamp_of_date (fst (date_range sel))) /\
  ts_le (Timestamp_of_date (snd (date_range sel)))
        (Timestamp_of_date (snd (date_range sel'))).

(** Every zone cell of the table is one of the four zone names. *)
Definition zones_standard (t : Source) : Prop :=
  match t with
  | WithZone recs => forall rz, In rz recs -> exists z, snd rz = zone_name z
  | WithoutZone _ => True
  end.

(** Every release timestamp of the table is a day at midnight. *)
Definition released_at_midnight (df : Frame) : Prop :=
  forall r, In r (body df) -> nanos (Released (base r)) = 0.

(* ------------------------------------------------------------------ *)
(** ** Lists, sums and orders *)

Lemma subseq_filter {A : Type} (f : A -> bool) (l : list A) :
  subseq (filter f l) l.
Proof.
  induction l as [|x l IH]; simpl.
  - constructor.
  - destruct (f x); constructor; exact IH.
Qed.

Lemma subseq_In {A : Type} (l1 l2 : list A) :
  subseq l1 l2 -> forall x, In x l1 -> In x l2.
Proof.
  induction 1 as [|y l1 l2 _ IH|y l1 l2 _ IH]; intros x Hx.
  - exact Hx.
  - right. apply IH, Hx.
  - destruct Hx as [->|Hx]; [left; reflexivity | right; apply IH, Hx].
Qed.

Lemma filter_idem {A : Type} (f : A -> bool) (l : list A) :
  filter f (filter f l) = filter f l.
Proof.
  induction l as [|x l IH]; simpl; [reflexivity|].
  destruct (f x) eqn:E; simpl; rewrite ?E, IH; reflexivity.
Qed.

Lemma sumQ_from (l : list Q) (a : Q) : (fold_left Qplus l a == a + sumQ l)%Q.
Proof.
  unfold sumQ. revert a.
  induction l as [|x l IH]; intro a; simpl.
  - ring.
  - rewrite (IH (a + x)%Q), (IH (0 + x)%Q). ring.
Qed.

Lemma sumQ_cons (x : Q) (l : list Q) : (sumQ (x :: l) == x + sumQ l)%Q.
Proof. unfold sumQ at 1. simpl. rewrite sumQ_from. ring. Qed.

Lemma sumQ_app (l1 l2 : list Q) : (sumQ (l1 ++ l2) == sumQ l1 + sumQ l2)%Q.
Proof.
  induction l1 as [|x l1 IH]; simpl.
  - unfold sumQ at 2. simpl. ring.
  - rewrite !sumQ_cons, IH. ring.
Qed.

Lemma sumQ_perm (l1 l2 : list Q) :
  Permutation l1 l2 -> (sumQ l1 == sumQ l2)%Q.
Proof.
  induction 1 as [|x l1 l2 _ IH|x y l|l1 l2 l3 _ IH1 _ IH2].
  - reflexivity.
  - rewrite !sumQ_cons, IH. reflexivity.
  - rewrite !sumQ_cons. ring.
  - rewrite IH1. exact IH2.
Qed.

Section StableSortFacts.
Context {A : Type}.
Variable le : A -> A -> bool.

Lemma insert_sorted_perm (x : A) (l : list A) :
  Permutation (insert_sorted le x l) (x :: l).
Proof.
  induction l as [|y l IH]; simpl.
  - apply Permutation_refl.
  - destruct (le x y).
    + apply Permutation_refl.
    + apply perm_trans with (y :: x :: l).
      * apply perm_skip, IH.
      * apply perm_swap.
Qed.

Lemma stable_sort_perm (l : list A) : Permutation (stable_sort le l) l.
Proof.
  induction l as [|x l IH]; simpl.
  - apply perm_nil.
  - apply perm_trans with (x :: stable_sort le l).
    + apply insert_sorted_perm.
    + apply perm_skip, IH.
Qed.

Lemma stable_sort_length (l : list A) :
  List.length (stable_sort le l) = List.length l.
Proof. apply Permutation_length, stable_sort_perm. Qed.

Lemma stable_sort_In (l : list A) (x : A) :
  In x (stable_sort le l) <-> In x l.
Proof.
  split; apply Permutation_in;
    [apply stable_sort_perm | apply Permutation_sym, stable_sort_perm].
Qed.

Hypothesis le_total : forall x y, le x y = false -> le y x = true.
Hypothesis le_trans :
  forall x y z, le x y = true -> le y z = true -> le x z = true.

Lemma insert_sorted_sorted (x : A) (l : list A) :
  StronglySorted (fun a b => le a b = true) l ->
  StronglySorted (fun a b => le a b = true) (insert_sorted le x l).
Proof.
  induction 1 as [|y l Hs IH Hy]; simpl.
  - constructor; constructor.
  - destruct (le x y) eqn:E.
    + constructor.
      * constructor; assumption.
      * constructor; [exact E|].
        rewrite Forall_forall in *. intros z Hz.
        apply le_trans with y; [exact E | apply Hy, Hz].
    + constructor; [exact IH|].
      rewrite Forall_forall in *. intros z Hz.
      apply (Permutation_in _ (insert_sorted_perm x l)) in Hz.
      destruct Hz as [<-|Hz]; [apply le_total, E | apply Hy, Hz].
Qed.

Lemma stable_sort_sorted (l : list A) :
  StronglySorted (fun a b => le a b = true) (stable_sort le l).
Proof.
  induction l as [|x l IH]; simpl.
  - constructor.
  - apply insert_sorted_sorted, IH.
Qed.
End StableSortFacts.

Lemma StronglySorted_app_inv {A : Type} (R : A -> A -> Prop) (l1 l2 : list A) :
  StronglySorted R (l1 ++ l2) ->
  StronglySorted R l1 /\ forall a b, In a l1 -> In b l2 -> R a b.
Proof.
  induction l1 as [|x l1 IH]; simpl; intro H.
  - split; [constructor | intros a b []].
  - inversion H as [|? ? Hs Hx]; subst.
    destruct (IH Hs) as [H1 H2].
    rewrite Forall_forall in Hx.
    split.
    + constructor; [exact H1|].
      rewrite Forall_forall. intros z Hz. apply Hx, in_or_app. left; exact Hz.
    + intros a b [<-|Ha] Hb.
      * apply Hx, in_or_app. right; exact Hb.
      * apply H2; assumption.
Qed.

Lemma StronglySorted_firstn {A : Type} (R : A -> A -> Prop) (n : nat)
  (l : list A) :
  StronglySorted R l -> StronglySorted R (firstn n l).
Proof.
  intro H. rewrite <- (firstn_skipn n l) in H.
  apply StronglySorted_app_inv in H. apply H.
Qed.

Lemma StronglySorted_weaken {A : Type} (R S : A -> A -> Prop) (l : list A) :
  (forall a b, R a b -> S a b) -> StronglySorted R l -> StronglySorted S l.
Proof.
  intros HRS. induction 1 as [|x l _ IH Hx]; constructor.
  - exact IH.
  - rewrite Forall_forall in *. intros y Hy. apply HRS, Hx, Hy.
Qed.

Lemma NoDup_firstn {A : Type} (n : nat) (l : list A) :
  NoDup l -> NoDup (firstn n l).
Proof.
  intro H. rewrite <- (firstn_skipn n l) in H.
  apply NoDup_app_remove_r in H. exact H.
Qed.

Lemma In_firstn {A : Type} (n : nat) (l : list A) (x : A) :
  In x (firstn n l) -> In x l.
Proof.
  intro H. rewrite <- (firstn_skipn n l). apply in_or_app. left; exact H.
Qed.

Section GroupByFacts.
Context {K V : Type}.
Variable keqb : K -> K -> bool.
Variable kleb : K -> K -> bool.
Variable vadd : V -> V -> V.
Variable vzero : V.
Hypothesis keqb_eq : forall a b, keqb a b = true <-> a = b.

(** The values of the rows whose key is [k], in row order. *)
Let group_of (k : K) (l : list (K * V)) : list V :=
  map snd (filter (fun kv => keqb (fst kv) k) l).

Lemma keqb_refl (k : K) : keqb k k = true.
Proof. apply keqb_eq. reflexivity. Qed.

Lemma factorize_sum_snoc (l : list (K * V)) (x : K * V) :
  factorize_sum keqb vadd vzero (l ++ [x]) =
  accumulate keqb vadd vzero (fst x) (snd x) (factorize_sum keqb vadd vzero l).
Proof. unfold factorize_sum. rewrite fold_left_app. reflexivity. Qed.

Lemma accumulate_keys_In (k : K) (v : V) (acc : list (K * V)) (k' : K) :
  In k' (map fst (accumulate keqb vadd vzero k v acc)) <->
  k' = k \/ In k' (map fst acc).
Proof.
  induction acc as [|[k0 v0] acc IH]; simpl.
  - intuition congruence.
  - destruct (keqb k k0) eqn:E; simpl.
    + apply keqb_eq in E. subst k0. intuition congruence.
    + rewrite IH. intuition congruence.
Qed.

Lemma accumulate_NoDup (k : K) (v : V) (acc : list (K * V)) :
  NoDup (map fst acc) -> NoDup (map fst (accumulate keqb vadd vzero k v acc)).
Proof.
  induction acc as [|[k0 v0] acc IH]; simpl; intro H.
  - constructor; [intros [] | constructor].
  - inversion H as [|? ? Hnot Hnd]; subst.
    destruct (keqb k k0) eqn:E; simpl.
    + constructor; assumption.
    + constructor; [|apply IH, Hnd].
      rewrite accumulate_keys_In. intros [->|Hin].
      * rewrite keqb_refl in E. discriminate.
      * contradiction.
Qed.

Lemma accumulate_In (k : K) (v : V) (acc : list (K * V)) (k' : K) (v' : V) :
  NoDup (map fst acc) ->
  In (k', v') (accumulate keqb vadd vzero k v acc) ->
  (k' <> k /\ In (k', v') acc) \/
  (k' = k /\
   ((exists a, In (k, a) acc /\ v' = vadd a v) \/
    (~ In k (map fst acc) /\ v' = vadd vzero v))).
Proof.
  induction acc as [|[k0 v0] acc IH]; simpl; intro Hnd.
  - intros [H|[]]. inversion H; subst. right. split; [reflexivity|].
    right. split; [tauto | reflexivity].
  - inversion Hnd as [|? ? Hnot Hnd']; subst.
    destruct (keqb k k0) eqn:E; simpl.
    + apply keqb_eq in E. subst k0. intros [H|H].
      * inversion H; subst. right. split; [reflexivity|].
        left. exists v0. split; [left; reflexivity | reflexivity].
      * left. split; [|right; exact H].
        intro Heq. subst k'. apply Hnot.
        apply (in_map fst) in H. exact H.
    + intros [H|H].
      * inversion H; subst. left. split; [|left; reflexivity].
        intro Heq. subst. rewrite keqb_refl in E. discriminate.
      * destruct (IH Hnd' H) as [[Hne Hin]|[Heq Hcase]].
        -- left. split; [exact Hne | right; exact Hin].
        -- right. split; [exact Heq|].
           destruct Hcase as [[a [Ha Hv]]|[Hni Hv]].
           ++ left. exists a. split; [right; exact Ha | exact Hv].
           ++ right. split; [|exact Hv].
              intros [Hk|Hk]; [|contradiction].
              subst k0. rewrite keqb_refl in E. discriminate.
Qed.

Lemma group_of_snoc (k : K) (l : list (K * V)) (x : K * V) :
  group_of k (l ++ [x]) =
  (group_of k l ++ (if keqb (fst x) k then [snd x] else []))%list.
Proof.
  unfold group_of. rewrite filter_app, map_app. simpl.
  destruct (keqb (fst x) k); reflexivity.
Qed.

Lemma group_of_absent (k : K) (l : list (K * V)) :
  ~ In k (map fst l) -> group_of k l = [].
Proof.
  unfold group_of. induction l as [|[k0 v0] l IH]; simpl; intro H.
  - reflexivity.
  - destruct (keqb k0 k) eqn:E.
    + apply keqb_eq in E. subst. tauto.
    + apply IH. tauto.
Qed.

Lemma factorize_sum_keys (l : list (K * V)) (k : K) :
  In k (map fst (factorize_sum keqb vadd vzero l)) <-> In k (map fst l).
Proof.
  induction l as [|x l IH] using rev_ind.
  - simpl. tauto.
  - rewrite factorize_sum_snoc, accumulate_keys_In, IH, map_app, in_app_iff.
    simpl. intuition congruence.
Qed.

Lemma factorize_sum_NoDup (l : list (K * V)) :
  NoDup (map fst (factorize_sum keqb vadd vzero l)).
Proof.
  induction l as [|x l IH] using rev_ind.
  - constructor.
  - rewrite factorize_sum_snoc. apply accumulate_NoDup, IH.
Qed.

Lemma factorize_sum_value (l : list (K * V)) (k : K) (v : V) :
  In (k, v) (factorize_sum keqb vadd vzero l) ->
  v = fold_left vadd (group_of k l) vzero.
Proof.
  revert k v. induction l as [|x l IH] using rev_ind; intros k v.
  - intros [].
  - rewrite factorize_sum_snoc, group_of_snoc, fold_left_app.
    intro H. apply accumulate_In in H; [|apply factorize_sum_NoDup].
    destruct H as [[Hne Hin]|[-> Hcase]].
    + destruct (keqb (fst x) k) eqn:E.
      * apply keqb_eq in E. congruence.
      * simpl. apply IH, Hin.
    + rewrite keqb_refl. simpl.
      destruct Hcase as [[a [Ha ->]]|[Hni ->]].
      * rewrite <- (IH _ _ Ha). reflexivity.
      * rewrite group_of_absent; [reflexivity|].
        rewrite <- factorize_sum_keys. exact Hni.
Qed.

Lemma groupby_sum_perm (l : list (K * V)) :
  Permutation (groupby_sum keqb kleb vadd vzero l)
              (factorize_sum keqb vadd vzero l).
Proof. apply stable_sort_perm. Qed.

Lemma groupby_sum_keys (l : list (K * V)) (k : K) :
  In k (map fst (groupby_sum keqb kleb vadd vzero l)) <-> In k (map fst l).
Proof.
  split; intro H.
  - apply factorize_sum_keys. revert H.
    apply Permutation_in, Permutation_map, groupby_sum_perm.
  - apply factorize_sum_keys in H. revert H.
    apply Permutation_in, Permutation_map, Permutation_sym, groupby_sum_perm.
Qed.

Lemma groupby_sum_NoDup (l : list (K * V)) :
  NoDup (map fst (groupby_sum keqb kleb vadd vzero l)).
Proof.
  apply Permutation_NoDup with (map fst (factorize_sum keqb vadd vzero l)).
  - apply Permutation_map, Permutation_sym, groupby_sum_perm.
  - apply factorize_sum_NoDup.
Qed.

Lemma groupby_sum_value (l : list (K * V)) (k : K) (v : V) :
  In (k, v) (groupby_sum keqb kleb vadd vzero l) ->
  v = fold_left vadd (map snd (filter (fun kv => keqb (fst kv) k) l)) vzero.
Proof.
  intro H. apply factorize_sum_value.
  apply (Permutation_in _ (groupby_sum_perm l)), H.
Qed.
End GroupByFacts.

Lemma ts_eqb_eq (a b : Timestamp) : ts_eqb a b = true <-> a = b.
Proof.
  unfold ts_eqb, ts_compare. destruct a as [ya ma da na], b as [yb mb db nb].
  simpl. split.
  - destruct (ya ?= yb) eqn:Ey; try discriminate.
    destruct (ma ?= mb) eqn:Em; try discriminate.
    destruct (da ?= db) eqn:Ed; try discriminate.
    destruct (na ?= nb) eqn:En; try discriminate.
    apply Z.compare_eq_iff in Ey, Em, Ed, En. intros _. congruence.
  - intro H. inversion H; subst. rewrite !Z.compare_refl. reflexivity.
Qed.

Lemma pair_eqb_eq (a b : string * string) : pair_eqb a b = true <-> a = b.
Proof.
  unfold pair_eqb. destruct a as [a1 a2], b as [b1 b2]. simpl.
  rewrite andb_true_iff, !String.eqb_eq. split.
  - intros [-> ->]. reflexivity.
  - intro H. inversion H. split; reflexivity.
Qed.

Lemma isin_In (x : string) (values : list string) :
  isin x values = true <-> In x values.
Proof.
  unfold isin. rewrite existsb_exists. split.
  - intros [y [Hy E]]. apply String.eqb_eq in E. subst. exact Hy.
  - intro H. exists x. split; [exact H | apply String.eqb_refl].
Qed.

Lemma ts_leb_le (a b : Timestamp) : ts_leb a b = true <-> ts_le a b.
Proof.
  unfold ts_leb, ts_le. destruct (ts_compare a b); split; congruence.
Qed.

Lemma zone_columns_In (df : Frame) (sel : Selection) (c : string) :
  In c (zone_columns df sel) <->
  exists z, In z (zone_filter sel) /\ c = zone_mapping z /\ In c (columns df).
Proof.
  unfold zone_columns. rewrite filter_In, in_map_iff. split.
  - intros [[z [Hz Hin]] Hc]. exists z. repeat split; auto.
    apply isin_In, Hc.
  - intros [z [Hin [Hz Hc]]]. split.
    + exists z. auto.
    + apply (proj2 (isin_In c (columns df))), Hc.
Qed.

Lemma row_mask_view (df : Frame) (sel : Selection) (r : ERow) :
  row_mask (df_filtered df sel) sel r = row_mask df sel r.
Proof. reflexivity. Qed.

Lemma aggregate_empty (view : Frame) :
  body view = [] -> aggregate view = empty_panels view.
Proof.
  destruct view as [zd b]. simpl. intros ->. reflexivity.
Qed.

(* ------------------------------------------------------------------ *)
(** ** Loader *)

(** C1: with the data file missing, [load_data] reports the error and
    returns [None]; the script then subscripts that result on line 32 and
    the run ends in a [TypeError] instead of skipping the later stages. *)
Theorem missing_file_raises (data_file_path : string) (picked : Sidebar)
  (page : list Shown) :
  load_data data_file_path None page =
    ((page ++ [st_error ("File not found at " ++ data_file_path)])%list,
     inr None) /\
  dashboard data_file_path None picked page =
    ((page ++ [st_write ("Looking for the data file at: " ++ data_file_path);
               st_error ("File not found at " ++ data_file_path)])%list,
     inl (TypeError "'NoneType' object is not subscriptable")) /\
  completed (dashboard data_file_path None picked page) = false.
Proof.
  unfold dashboard, load_data, getitem, bind, show, ret, raise, completed.
  simpl. rewrite <- app_assoc. simpl. repeat split.
Qed.

(** With the data file in place, a table with at least one row and both
    dates picked, the run reaches the last chart. *)
Lemma dashboard_completes (data_file_path : string) (t : Source)
  (picked : Sidebar) (first last : Date) (more : list Date)
  (page : list Shown) :
  body (enrich t) <> [] ->
  picked_dates picked = first :: last :: more ->
  dashboard data_file_path (Some t) picked page =
    ((page ++ [st_write ("Looking for the data file at: "
                         ++ data_file_path)])%list,
     inr (aggregate
            (df_filtered (enrich t) (selection_with picked first last)))).
Proof.
  intros Hrows Hdates.
  unfold dashboard, load_data, getitem, sidebar, bind, show, ret.
  destruct (body (enrich t)) as [|r rs] eqn:E; [contradiction|].
  rewrite Hdates. reflexivity.
Qed.

(** On a table without rows the run stops at line 51. *)
Lemma empty_table_raises (data_file_path : string) (t : Source)
  (picked : Sidebar) (page : list Shown) :
  body (enrich t) = [] ->
  dashboard data_file_path (Some t) picked page =
    ((page ++ [st_write ("Looking for the data file at: "
                         ++ data_file_path)])%list,
     inl ValueError).
Proof.
  intro Hrows.
  unfold dashboard, load_data, getitem, sidebar, bind, show, ret, raise.
  rewrite Hrows. reflexivity.
Qed.

(** With fewer than two dates in the picker the run stops at line 60. *)
Lemma unfinished_range_raises (data_file_path : string) (t : Source)
  (picked : Sidebar) (page : list Shown) :
  body (enrich t) <> [] ->
  (List.length (picked_dates picked) < 2)%nat ->
  dashboard data_file_path (Some t) picked page =
    ((page ++ [st_write ("Looking for the data file at: "
                         ++ data_file_path)])%list,
     inl (IndexError "tuple index out of range")).
Proof.
  intros Hrows Hdates.
  unfold dashboard, load_data, getitem, sidebar, bind, show, ret, raise.
  destruct (body (enrich t)) as [|r rs]; [contradiction|].
  destruct (picked_dates picked) as [|d0 [|d1 ds]]; cbn in Hdates;
    try reflexivity; lia.
Qed.

(* ------------------------------------------------------------------ *)
(** ** The float64 of an integer *)

Lemma iter_pos_iter {A : Type} (f : A -> A) (p : positive) :
  forall x, iter_pos f p x = Pos.iter f x p.
Proof.
  induction p as [p IH|p IH|]; intro x; cbn [iter_pos Pos.iter].
  - rewrite !IH, <- !Pos.iter_swap. reflexivity.
  - rewrite !IH. reflexivity.
  - reflexivity.
Qed.

Lemma shr_1_nonneg (m : Z) (r s : bool) :
  0 <= m ->
  shr_1 {| shr_m := m; shr_r := r; shr_s := s |} =
  {| shr_m := m / 2; shr_r := Z.odd m; shr_s := r || s |}.
Proof.
  intro H. rewrite <- Z.div2_div.
  destruct m as [|p|p]; [reflexivity| |lia].
  destruct p; reflexivity.
Qed.

Lemma shr_iter (m : Z) (p : positive) :
  0 <= m ->
  iter_pos shr_1 p {| shr_m := m; shr_r := false; shr_s := false |} =
  {| shr_m := m / 2 ^ Z.pos p;
     shr_r := Z.testbit m (Z.pos p - 1);
     shr_s := negb (m mod 2 ^ (Z.pos p - 1) =? 0) |}.
Proof.
  intro H. rewrite iter_pos_iter.
  apply (Pos.iter_ind _ shr_1 _
           (fun p mrs => mrs =
              {| shr_m := m / 2 ^ Z.pos p;
                 shr_r := Z.testbit m (Z.pos p - 1);
                 shr_s := negb (m mod 2 ^ (Z.pos p - 1) =? 0) |})).
  - rewrite shr_1_nonneg by assumption.
    change (Z.pos 1 - 1) with 0. rewrite Z.pow_0_r, Z.mod_1_r, Z.bit0_odd.
    reflexivity.
  - intros q mrs ->.
    assert (Hq : 0 <= m / 2 ^ Z.pos q).
    { apply Z.div_pos; [assumption | apply Z.pow_pos_nonneg; lia]. }
    rewrite shr_1_nonneg by assumption.
    rewrite Pos2Z.inj_succ.
    replace (Z.succ (Z.pos q) - 1) with (Z.pos q) by lia.
    f_equal.
    + rewrite Z.pow_succ_r by lia.
      rewrite Z.mul_comm, <- Z.div_div by (try apply Z.pow_pos_nonneg; lia).
      reflexivity.
    + rewrite Z.testbit_odd, Z.shiftr_div_pow2 by lia. reflexivity.
    + set (k := Z.pos q - 1). assert (Hk : 0 <= k) by (unfold k; lia).
      replace (Z.pos q) with (Z.succ k) by (unfold k; lia).
      pose proof (Z.testbit_spec' m k Hk) as Hb.
      pose proof (Z.pow_pos_nonneg 2 k ltac:(lia) Hk) as Hp.
      rewrite Z.pow_succ_r by assumption.
      pose proof (Z.div_mod m (2 ^ k) ltac:(lia)) as D1.
      pose proof (Z.div_mod (m / 2 ^ k) 2 ltac:(lia)) as D2.
      pose proof (Z.mod_pos_bound m (2 ^ k) Hp) as B1.
      pose proof (Z.mod_pos_bound (m / 2 ^ k) 2 ltac:(lia)) as B2.
      assert (E : m mod (2 * 2 ^ k) =
                  m mod 2 ^ k + 2 ^ k * ((m / 2 ^ k) mod 2)).
      { symmetry. apply (Z.mod_unique_pos _ _ (m / 2 ^ k / 2)); nia. }
      rewrite E, <- Hb.
      destruct (Z.testbit m k); cbn [Z.b2z orb].
      * symmetry. apply negb_true_iff, Z.eqb_neq. nia.
      * rewrite Z.mul_0_r, Z.add_0_r. reflexivity.
Qed.

Lemma digits2_log2 (p : positive) :
  Z.pos (digits2_pos p) = Z.log2 (Z.pos p) + 1.
Proof.
  assert (E : digits2_pos p = Pos.size p).
  { induction p as [p IH|p IH|]; cbn; congruence. }
  rewrite E. destruct p; cbn; lia.
Qed.

Lemma Zdigits2_log2 (m : Z) : 0 < m -> Zdigits2 m = Z.log2 m + 1.
Proof.
  destruct m as [|p|p]; try lia. intros _. apply digits2_log2.
Qed.

(** Dropping the bits a 53-bit significand has no room for. *)
Lemma shr_fexp_exact (m e : Z) :
  0 < m -> - 1074 <= Z.log2 m - 52 + e ->
  shr_fexp prec emax m e loc_Exact =
  if 0 <? Z.log2 m - 52
  then ({| shr_m := m / 2 ^ (Z.log2 m - 52);
           shr_r := Z.testbit m (Z.log2 m - 52 - 1);
           shr_s := negb (m mod 2 ^ (Z.log2 m - 52 - 1) =? 0) |},
        e + (Z.log2 m - 52))
  else ({| shr_m := m; shr_r := false; shr_s := false |}, e).
Proof.
  intros Hm He. unfold shr_fexp, fexp, emin, prec, emax.
  rewrite Zdigits2_log2 by assumption.
  replace (Z.max (Z.log2 m + 1 + e - 53) (3 - 1024 - 53) - e)
    with (Z.log2 m - 52) by lia.
  cbn [shr_record_of_loc]. unfold shr.
  destruct (Z.log2 m - 52) as [|p|p] eqn:E.
  - reflexivity.
  - rewrite shr_iter by lia. reflexivity.
  - reflexivity.
Qed.

Lemma mod_pow2_split (m k : Z) :
  0 <= k ->
  m mod 2 ^ (k + 1) = m mod 2 ^ k + 2 ^ k * Z.b2z (Z.testbit m k).
Proof.
  intro Hk. rewrite (Z.testbit_spec' m k Hk).
  pose proof (Z.pow_pos_nonneg 2 k ltac:(lia) Hk) as Hp.
  rewrite Z.pow_add_r, Z.pow_1_r by lia.
  pose proof (Z.div_mod m (2 ^ k) ltac:(lia)) as D1.
  pose proof (Z.div_mod (m / 2 ^ k) 2 ltac:(lia)) as D2.
  pose proof (Z.mod_pos_bound m (2 ^ k) Hp) as B1.
  pose proof (Z.mod_pos_bound (m / 2 ^ k) 2 ltac:(lia)) as B2.
  symmetry. apply (Z.mod_unique_pos _ _ (m / 2 ^ k / 2)); nia.
Qed.

Lemma round_nearest_even_up (a k : Z) :
  0 < k ->
  round_nearest_even (a / 2 ^ k)
    (loc_of_shr_record
       {| shr_m := a / 2 ^ k;
          shr_r := Z.testbit a (k - 1);
          shr_s := negb (a mod 2 ^ (k - 1) =? 0) |}) =
  if round_up a k then a / 2 ^ k + 1 else a / 2 ^ k.
Proof.
  intro Hk. unfold round_up.
  pose proof (mod_pow2_split a (k - 1) ltac:(lia)) as E.
  replace (k - 1 + 1) with k in E by lia.
  pose proof (Z.pow_pos_nonneg 2 (k - 1) ltac:(lia) ltac:(lia)) as Hp.
  pose proof (Z.mod_pos_bound a (2 ^ (k - 1)) Hp) as B.
  rewrite E. cbn [loc_of_shr_record].
  destruct (Z.testbit a (k - 1)); cbn [Z.b2z].
  - destruct (Z.eqb_spec (a mod 2 ^ (k - 1)) 0) as [E0|E0]; cbn [negb].
    + rewrite E0. cbn [round_nearest_even].
      replace (2 ^ (k - 1) <? 0 + 2 ^ (k - 1) * 1) with false
        by (symmetry; apply Z.ltb_ge; lia).
      replace (2 ^ (k - 1) =? 0 + 2 ^ (k - 1) * 1) with true
        by (symmetry; apply Z.eqb_eq; lia).
      cbn [orb andb]. rewrite <- Z.negb_even.
      destruct (Z.even (a / 2 ^ k)); reflexivity.
    + cbn [round_nearest_even].
      replace (2 ^ (k - 1) <? a mod 2 ^ (k - 1) + 2 ^ (k - 1) * 1) with true
        by (symmetry; apply Z.ltb_lt; lia).
      reflexivity.
  - replace (2 ^ (k - 1) <? a mod 2 ^ (k - 1) + 2 ^ (k - 1) * 0) with false
      by (symmetry; apply Z.ltb_ge; lia).
    replace (2 ^ (k - 1) =? a mod 2 ^ (k - 1) + 2 ^ (k - 1) * 0) with false
      by (symmetry; apply Z.eqb_neq; lia).
    cbn [orb andb].
    destruct (negb (a mod 2 ^ (k - 1) =? 0)); reflexivity.
Qed.

Lemma bounded_53 (m : positive) (e : Z) :
  Z.log2 (Z.pos m) = 52 -> - 1074 <= e <= 971 ->
  bounded prec emax m e = true.
Proof.
  intros Hm He. unfold bounded, canonical_mantissa, fexp, emin, prec, emax.
  rewrite digits2_log2, Hm. apply andb_true_iff. split.
  - apply Z.eqb_eq. lia.
  - apply Z.leb_le. lia.
Qed.

Lemma log2_52 (m : Z) : 2 ^ 52 <= m < 2 ^ 53 -> Z.log2 m = 52.
Proof. intro H. apply Z.log2_unique; lia. Qed.

(** A significand of exactly 53 bits is kept as it is. *)
Lemma binary_round_aux_53 (sx : bool) (m : positive) (e : Z) :
  Z.log2 (Z.pos m) = 52 -> - 1074 <= e <= 971 ->
  binary_round_aux prec emax sx (Z.pos m) e loc_Exact = S754_finite sx m e.
Proof.
  intros Hm He. unfold binary_round_aux.
  rewrite shr_fexp_exact by lia. rewrite Hm.
  change (0 <? 52 - 52) with false. cbv iota beta.
  cbn [shr_m loc_of_shr_record round_nearest_even].
  rewrite shr_fexp_exact by lia. rewrite Hm.
  change (0 <? 52 - 52) with false. cbv iota beta. cbn [shr_m].
  unfold emax, prec.
  replace (e <=? 1024 - 53) with true by (symmetry; apply Z.leb_le; lia).
  reflexivity.
Qed.

(** A longer significand is cut to 53 bits, to the nearest, the even one
    on a tie. *)
Lemma binary_round_aux_long (sx : bool) (a : Z) :
  53 <= Z.log2 a < 900 ->
  exists m e,
    binary_round_aux prec emax sx a 0 loc_Exact = S754_finite sx m e /\
    bounded prec emax m e = true /\ 0 <= e /\
    Z.pos m * 2 ^ e =
    (if round_up a (Z.log2 a - 52)
     then a / 2 ^ (Z.log2 a - 52) + 1 else a / 2 ^ (Z.log2 a - 52)) *
    2 ^ (Z.log2 a - 52).
Proof.
  intro Hl.
  assert (Ha : 0 < a).
  { destruct (Z.lt_trichotomy a 0) as [H|[H|H]]; [|subst a|assumption].
    - rewrite Z.log2_nonpos in Hl by lia. lia.
    - cbn in Hl. lia. }
  set (k := Z.log2 a - 52) in *. assert (Hk : 0 < k) by (unfold k; lia).
  pose proof (Z.log2_spec a Ha) as [Hlo Hhi].
  replace (Z.log2 a) with (52 + k) in Hlo by (unfold k; lia).
  replace (Z.succ (Z.log2 a)) with (53 + k) in Hhi by (unfold k; lia).
  rewrite Z.pow_add_r in Hlo, Hhi by lia.
  pose proof (Z.pow_pos_nonneg 2 k ltac:(lia) ltac:(lia)) as Hp.
  assert (Hq : 2 ^ 52 <= a / 2 ^ k < 2 ^ 53).
  { split.
    - apply Z.div_le_lower_bound; lia.
    - apply Z.div_lt_upper_bound; lia. }
  unfold binary_round_aux.
  rewrite shr_fexp_exact by lia. fold k.
  replace (0 <? k) with true by (symmetry; apply Z.ltb_lt; lia).
  cbv iota beta. cbn [shr_m].
  rewrite round_nearest_even_up by assumption.
  set (m2 := if round_up a k then a / 2 ^ k + 1 else a / 2 ^ k).
  assert (Hm2 : 2 ^ 52 <= m2 <= 2 ^ 53).
  { unfold m2. destruct (round_up a k); lia. }
  destruct (Z.eq_dec m2 (2 ^ 53)) as [E|E].
  - rewrite E. exists (2 ^ 52)%positive, (k + 1). split; [|split; [|split]].
    + rewrite shr_fexp_exact by (rewrite ?Z.log2_pow2; lia).
      rewrite Z.log2_pow2 by lia.
      change (0 <? 53 - 52) with true. cbv iota beta. cbn [shr_m].
      change (2 ^ 53 / 2 ^ (53 - 52)) with (Z.pos (2 ^ 52)).
      cbv iota beta. unfold emax, prec.
      replace (0 + k + (53 - 52) <=? 1024 - 53) with true
        by (symmetry; apply Z.leb_le; lia).
      f_equal; lia.
    + apply bounded_53; [reflexivity | lia].
    + lia.
    + rewrite Z.pow_add_r by lia. change (Z.pos (2 ^ 52)) with (2 ^ 52).
      change (2 ^ 53) with (2 ^ 52 * 2 ^ 1). lia.
  - assert (Hlog : Z.log2 m2 = 52) by (apply log2_52; lia).
    destruct m2 as [|m|m] eqn:Em; try lia.
    exists m, k. split; [|split; [|split]].
    + rewrite shr_fexp_exact by lia. rewrite Hlog.
      change (0 <? 52 - 52) with false. cbv iota beta. cbn [shr_m].
      unfold emax, prec.
      replace (0 + k <=? 1024 - 53) with true
        by (symmetry; apply Z.leb_le; lia).
      reflexivity.
    + apply bounded_53; [assumption | lia].
    + lia.
    + reflexivity.
Qed.

Lemma pos_iter_xO (m d : positive) :
  Z.pos (Pos.iter xO m d) = Z.pos m * 2 ^ Z.pos d.
Proof.
  rewrite <- Z.shiftl_mul_pow2 by lia. cbn [Z.shiftl].
  apply (Pos.iter_swap_gen _ _ Z.pos xO (Z.mul 2)). reflexivity.
Qed.

Lemma Qpower_2_nonneg (e : Z) : 0 <= e -> (Qpower 2 e == inject_Z (2 ^ e))%Q.
Proof. intro H. rewrite Zpower_Qpower by assumption. reflexivity. Qed.

Lemma nearest_double_opp (n : Z) : nearest_double (- n) = - nearest_double n.
Proof.
  unfold nearest_double. rewrite Z.abs_opp, Z.sgn_opp.
  destruct (Z.abs n <? 2 ^ 53); lia.
Qed.

(** The conversion of a positive integer: its nearest double. *)
Lemma binary_round_int (sx : bool) (mx : positive) :
  Z.log2 (Z.pos mx) < 900 ->
  exists m e,
    binary_round prec emax sx mx 0 = S754_finite sx m e /\
    bounded prec emax m e = true /\
    (inject_Z (Z.pos m) * Qpower 2 e ==
     inject_Z (nearest_double (Z.pos mx)))%Q.
Proof.
  intro Hl. unfold binary_round.
  pose proof (Z.log2_nonneg (Z.pos mx)) as Hl0.
  unfold fexp at 1, emin, prec at 1 2, emax at 1.
  rewrite digits2_log2.
  replace (Z.max (Z.log2 (Z.pos mx) + 1 + 0 - 53) (3 - 1024 - 53))
    with (Z.log2 (Z.pos mx) - 52) by lia.
  unfold shl_align. rewrite Z.sub_0_r.
  unfold nearest_double. cbn [Z.abs Z.sgn].
  destruct (Z.ltb_spec (Z.pos mx) (2 ^ 53)) as [Hs|Hb].
  - assert (Hle : Z.log2 (Z.pos mx) <= 52).
    { apply Z.log2_lt_pow2 in Hs; lia. }
    destruct (Z.log2 (Z.pos mx) - 52) as [|d|d] eqn:Ed; [|lia|].
    + exists mx, 0. split; [|split].
      * apply binary_round_aux_53; lia.
      * apply bounded_53; lia.
      * change (Qpower 2 0) with 1%Q. ring.
    + assert (Hlog : Z.log2 (Z.pos (Pos.iter xO mx d)) = 52).
      { rewrite pos_iter_xO, Z.log2_mul_pow2 by lia. lia. }
      exists (Pos.iter xO mx d), (Z.neg d). split; [|split].
      * apply binary_round_aux_53; [assumption | lia].
      * apply bounded_53; [assumption | lia].
      * rewrite pos_iter_xO, inject_Z_mult.
        change (Z.neg d) with (- Z.pos d). rewrite Qpower_opp.
        rewrite Qpower_2_nonneg by lia.
        rewrite <- Qmult_assoc, Qmult_inv_r; [ring|].
        change 0%Q with (inject_Z 0). rewrite inject_Z_injective.
        pose proof (Z.pow_pos_nonneg 2 (Z.pos d)). lia.
  - assert (Hge : 53 <= Z.log2 (Z.pos mx)).
    { rewrite <- (Z.log2_pow2 53) by lia. apply Z.log2_le_mono, Hb. }
    destruct (Z.log2 (Z.pos mx) - 52) as [|d|d] eqn:Ed; try lia.
    destruct (binary_round_aux_long sx (Z.pos mx) ltac:(lia))
      as [m [e [E1 [E2 [E3 E4]]]]].
    exists m, e. split; [exact E1|]. split; [exact E2|].
    rewrite Qpower_2_nonneg, <- inject_Z_mult by assumption.
    rewrite E4, Ed. unfold round_up. rewrite Z.mul_1_l. reflexivity.
Qed.

(** The float64 an integer is converted to has the value
    [nearest_double] gives; it is never an infinity or a NaN for an
    [int64]. *)
Lemma float_of_int64_value (n : Z) :
  Z.abs n < 2 ^ 64 ->
  exists q, exact_value (float_of_int64 n) = Some q /\
            (q == inject_Z (nearest_double n))%Q.
Proof.
  intro H. unfold float_of_int64, exact_value, binary_normalize.
  destruct n as [|p|p].
  - exists 0%Q. split; [reflexivity|]. reflexivity.
  - assert (Hl : Z.log2 (Z.pos p) < 900).
    { apply Z.lt_trans with 64; [|lia].
      apply Z.log2_lt_pow2; [lia | exact H]. }
    destruct (binary_round_int false p Hl) as [m [e [E1 [E2 E3]]]].
    rewrite E1, Prim2SF_SF2Prim by exact E2.
    eexists. split; [reflexivity|]. exact E3.
  - assert (Hl : Z.log2 (Z.pos p) < 900).
    { apply Z.lt_trans with 64; [|lia].
      apply Z.log2_lt_pow2; [lia | exact H]. }
    destruct (binary_round_int true p Hl) as [m [e [E1 [E2 E3]]]].
    rewrite E1, Prim2SF_SF2Prim by exact E2.
    eexists. split; [reflexivity|].
    change (Z.neg p) with (- Z.pos p). rewrite nearest_double_opp.
    change (Z.neg m) with (- Z.pos m).
    rewrite !inject_Z_opp, <- E3. ring.
Qed.

(** One rounding step: keeping the multiple of [2 * h] nearest to [a]
    moves [a] by at most [h]. *)
Lemma round_step_close (a h : Z) :
  0 < h ->
  let m := a / (2 * h) in
  let r := a mod (2 * h) in
  let up := (h <? r) || ((h =? r) && Z.odd m) in
  Z.abs ((if up then m + 1 else m) * (2 * h) - a) <= h.
Proof.
  intros Hh m r up.
  pose proof (Z.div_mod a (2 * h) ltac:(lia)) as Hdiv.
  pose proof (Z.mod_pos_bound a (2 * h) ltac:(lia)) as Hr.
  fold m in Hdiv. fold r in Hdiv, Hr.
  assert (Hup : up = true -> h <= r).
  { unfold up. rewrite orb_true_iff, andb_true_iff, Z.ltb_lt, Z.eqb_eq. lia. }
  assert (Hdown : up = false -> r <= h).
  { unfold up. rewrite orb_false_iff, Z.ltb_ge. lia. }
  destruct up.
  - specialize (Hup eq_refl). nia.
  - specialize (Hdown eq_refl). nia.
Qed.

Lemma nearest_double_exact (n : Z) :
  Z.abs n <= 2 ^ 53 -> nearest_double n = n.
Proof.
  intro H. unfold nearest_double.
  destruct (Z.ltb_spec (Z.abs n) (2 ^ 53)) as [_|Hge]; [reflexivity|].
  assert (Hn : n = 2 ^ 53 \/ n = - 2 ^ 53) by lia.
  destruct Hn as [-> | ->]; vm_compute; reflexivity.
Qed.

Lemma nearest_double_close (n : Z) :
  - 2 ^ 63 <= n < 2 ^ 63 -> Z.abs (nearest_double n - n) <= 512.
Proof.
  intro H.
  destruct (Z.eq_dec n (- 2 ^ 63)) as [-> | Hmin]; [vm_compute; discriminate|].
  unfold nearest_double, round_up.
  destruct (Z.ltb_spec (Z.abs n) (2 ^ 53)) as [_|Hge]; [lia|].
  set (a := Z.abs n) in *.
  assert (Ha : 0 < a) by lia.
  assert (Hlo : 53 <= Z.log2 a).
  { rewrite <- (Z.log2_pow2 53) by lia. apply Z.log2_le_mono, Hge. }
  assert (Hhi : Z.log2 a < 63).
  { apply Z.log2_lt_pow2; lia. }
  set (e := Z.log2 a - 52).
  assert (Hpow : 2 ^ e = 2 * 2 ^ (e - 1)).
  { replace e with (Z.succ (e - 1)) at 1 by lia.
    apply Z.pow_succ_r. unfold e. lia. }
  assert (Hh : 0 < 2 ^ (e - 1)) by (apply Z.pow_pos_nonneg; unfold e; lia).
  assert (Hh512 : 2 ^ (e - 1) <= 512).
  { change 512 with (2 ^ 9). apply Z.pow_le_mono_r; unfold e; lia. }
  pose proof (round_step_close a (2 ^ (e - 1)) Hh) as Hstep.
  cbv zeta in Hstep. rewrite <- Hpow in Hstep.
  set (x := (if (2 ^ (e - 1) <? a mod 2 ^ e)
                || ((2 ^ (e - 1) =? a mod 2 ^ e) && Z.odd (a / 2 ^ e))
             then a / 2 ^ e + 1 else a / 2 ^ e) * 2 ^ e) in *.
  destruct (Z.lt_trichotomy n 0) as [Hneg|[Hz|Hpos]].
  - rewrite (Z.sgn_neg n Hneg). unfold a in Hstep. lia.
  - subst n. unfold a in Hge. cbn in Hge. lia.
  - rewrite (Z.sgn_pos n Hpos). unfold a in Hstep. lia.
Qed.

(* ------------------------------------------------------------------ *)
(** ** Enricher *)

Lemma enrich_revenue (t : Source) (r : ERow) :
  In r (body (enrich t)) -> revenue r = revenue_of (base r).
Proof.
  destruct t as [recs|recs]; simpl; rewrite in_map_iff;
    intros [x [<- _]]; reflexivity.
Qed.

Lemma nth_error_combine {A B : Type} (l1 : list A) :
  forall (l2 : list B) i a b,
    nth_error l1 i = Some a -> nth_error l2 i = Some b ->
    nth_error (combine l1 l2) i = Some (a, b).
Proof.
  induction l1 as [|x l1 IH]; intros l2 i a b H1 H2.
  - destruct i; discriminate H1.
  - destruct l2 as [|y l2]; [destruct i; discriminate H2|].
    destruct i as [|i]; cbn in *.
    + congruence.
    + apply IH; assumption.
Qed.

Lemma revenue_column_nth (installs : list Z) (prices : list float)
  (i : nat) (n : Z) (p : float) :
  nth_error installs i = Some n -> nth_error prices i = Some p ->
  nth_error (revenue_column installs prices) i = Some (revenue_f64 n p).
Proof.
  intros H1 H2. unfold revenue_column.
  rewrite nth_error_map, (nth_error_combine _ _ i n p H1 H2). reflexivity.
Qed.

Lemma float_of_int64_exact (n : Z) :
  Z.abs n <= 2 ^ 53 ->
  exists q, exact_value (float_of_int64 n) = Some q /\
            (q == inject_Z n)%Q.
Proof.
  intro H. destruct (float_of_int64_value n ltac:(lia)) as [q [E Hq]].
  exists q. split; [exact E|].
  rewrite Hq, (nearest_double_exact n H). reflexivity.
Qed.

Lemma revenue_of_free_app (n : Z) :
  - 2 ^ 63 <= n < 2 ^ 63 ->
  exact_value (revenue_f64 n 0%float) = Some 0%Q.
Proof.
  intro H. destruct (float_of_int64_value n ltac:(lia)) as [q [E _]].
  unfold exact_value in *. unfold revenue_f64. rewrite mul_spec.
  change (Prim2SF 0%float) with (S754_zero false).
  destruct (Prim2SF (float_of_int64 n)); try discriminate E; reflexivity.
Qed.

(** C3, as the code has it: every cell of the revenue column is the
    binary64 product of the Installs cell of its row, converted to float64,
    and the Price cell of its row, as IEEE 754 defines the product (the
    exact product rounded to a double); nothing else is applied to it, a
    null Price gives a null revenue, and rows that agree on Installs and
    Price agree on revenue.  The conversion of Installs loses nothing up to
    2^53, and a free app has revenue 0 whatever its Installs. *)
Theorem revenue_is_float_product :
  (forall installs prices i n p,
     nth_error installs i = Some n -> nth_error prices i = Some p ->
     nth_error (revenue_column installs prices) i = Some (revenue_f64 n p)) /\
  (forall n p,
     Prim2SF (revenue_f64 n p) =
     SF64mul (Prim2SF (float_of_int64 n)) (Prim2SF p)) /\
  (forall n p,
     Prim2SF p = S754_nan -> Prim2SF (revenue_f64 n p) = S754_nan) /\
  (forall installs prices i j n p,
     nth_error installs i = Some n -> nth_error prices i = Some p ->
     nth_error installs j = Some n -> nth_error prices j = Some p ->
     nth_error (revenue_column installs prices) i =
     nth_error (revenue_column installs prices) j) /\
  (forall n, Z.abs n <= 2 ^ 53 ->
     exists q, exact_value (float_of_int64 n) = Some q /\
               (q == inject_Z n)%Q) /\
  (forall n, - 2 ^ 63 <= n < 2 ^ 63 ->
     exact_value (revenue_f64 n 0%float) = Some 0%Q).
Proof.
  split; [exact revenue_column_nth|]. split; [|split; [|split; [|split]]].
  - intros n p. unfold revenue_f64. apply mul_spec.
  - intros n p Hp. unfold revenue_f64. rewrite mul_spec, Hp.
    destruct (Prim2SF (float_of_int64 n)); reflexivity.
  - intros installs prices i j n p Hi1 Hi2 Hj1 Hj2.
    rewrite (revenue_column_nth _ _ i n p Hi1 Hi2).
    rewrite (revenue_column_nth _ _ j n p Hj1 Hj2). reflexivity.
  - exact float_of_int64_exact.
  - exact revenue_of_free_app.
Qed.

Lemma revenue_is_float_product_witness :
  nth_error (revenue_column [100; 10] [0%float; 5%float]) 1 =
    Some (revenue_f64 10 5%float) /\
  option_map Qred (exact_value (revenue_f64 10 5%float)) = Some 50%Q /\
  exact_value (revenue_f64 100 0%float) = Some 0%Q.
Proof.
  split; [|split].
  - apply (proj1 revenue_is_float_product [100; 10] [0%float; 5%float]
             1%nat 10 5%float); reflexivity.
  - vm_compute. reflexivity.
  - apply (proj2 (proj2 (proj2 (proj2 (proj2 revenue_is_float_product))))).
    split; vm_compute; [discriminate | reflexivity].
Defined.

(** C3 as worded fails: 3 installs at the double nearest to 0.1 give the
    double 0.30000000000000004, which is not three times that price. *)
Lemma revenue_not_exact : ~ spec_revenue_exact.
Proof.
  intro H.
  destruct (exact_value 0x1.999999999999ap-4%float) as [p|] eqn:Ep;
    [|vm_compute in Ep; discriminate Ep].
  destruct (H 3 _ p Ep) as [q [Eq Hq]].
  vm_compute in Ep. inversion Ep; subst p.
  vm_compute in Eq. inversion Eq; subst q.
  vm_compute in Hq. discriminate Hq.
Qed.

(** The revenue cells of the scenario table are exact: 100 installs at
    price 0 give 0, and 10 installs at price 5 give 50. *)
Example scenario_revenue_exact :
  option_map Qred (exact_value (revenue_f64 100 0%float)) = Some 0%Q /\
  option_map Qred (exact_value (revenue_f64 10 5%float)) = Some 50%Q.
Proof. vm_compute. split; reflexivity. Qed.

(* ------------------------------------------------------------------ *)
(** ** Filter engine *)

Lemma row_mask_spec (df : Frame) (sel : Selection) (r : ERow) :
  row_mask df sel r = true <->
  In (Category (base r)) (category_filter sel) /\
  In (geo_region (base r)) (region_filter sel) /\
  (zone_columns df sel = [] \/
   exists z, In z (zone_filter sel) /\ In (zone_mapping z) (columns df) /\
             flag (zone_mapping z) r = true) /\
  ts_le (Timestamp_of_date (fst (date_range sel))) (Released (base r)) /\
  ts_le (Released (base r)) (Timestamp_of_date (snd (date_range sel))).
Proof.
  unfold row_mask, between.
  rewrite !andb_true_iff, !isin_In, !ts_leb_le.
  assert (Hz : (match zone_columns df sel with
                | [] => true
                | _ :: _ => any_flag (zone_columns df sel) r
                end) = true <->
               (zone_columns df sel = [] \/
                exists z, In z (zone_filter sel) /\
                          In (zone_mapping z) (columns df) /\
                          flag (zone_mapping z) r = true)).
  { destruct (zone_columns df sel) as [|c cs] eqn:E.
    - split; [left; reflexivity | reflexivity].
    - rewrite <- E. unfold any_flag. rewrite existsb_exists. split.
      + intros [c' [Hc' Hf]]. right.
        apply zone_columns_In in Hc'. destruct Hc' as [z [Hz [-> Hc]]].
        exists z. auto.
      + intros [Habs|[z [Hz [Hc Hf]]]].
        * rewrite E in Habs. discriminate.
        * exists (zone_mapping z). split; [|exact Hf].
          apply zone_columns_In. exists z. auto. }
  destruct (zone_columns df sel) as [|c cs] eqn:E.
  - rewrite <- Hz. tauto.
  - rewrite <- Hz, <- E. tauto.
Qed.

(** C4, as the code has it: the view keeps, in table order, exactly the
    rows whose Category and geo_region are selected, whose Released lies
    in the closed interval of the two picked dates, and which have a true
    indicator among the columns of the selected zones; the zone term holds
    for every row as soon as no selected zone has a column in the table,
    which covers a table without indicator columns and an empty zone
    selection alike. *)
Theorem filter_contract (df : Frame) (sel : Selection) :
  subseq (body (df_filtered df sel)) (body df) /\
  forall r,
    In r (body (df_filtered df sel)) <->
    In r (body df) /\
    In (Category (base r)) (category_filter sel) /\
    In (geo_region (base r)) (region_filter sel) /\
    (zone_columns df sel = [] \/
     exists z, In z (zone_filter sel) /\ In (zone_mapping z) (columns df) /\
               flag (zone_mapping z) r = true) /\
    ts_le (Timestamp_of_date (fst (date_range sel))) (Released (base r)) /\
    ts_le (Released (base r)) (Timestamp_of_date (snd (date_range sel))).
Proof.
  split.
  - apply subseq_filter.
  - intro r. simpl. rewrite filter_In, row_mask_spec. tauto.
Qed.

(** C4 as worded fails: with the zone multiselect emptied the code keeps
    both rows of the scenario table, while the worded contract keeps none. *)
Lemma filter_contract_as_worded_fails :
  ~ (forall df sel,
       body (df_filtered df sel) = filter (spec_mask df sel) (body df)).
Proof.
  intro H.
  specialize (H (enrich scenario_table)
                (scenario_selection [] (mkDate 2021 1 1) (mkDate 2022 12 31))).
  vm_compute in H. discriminate H.
Qed.

(** The first scenario of the specification: with nothing filtered out,
    total revenue is 50, total installs 110, the average rating 3.75 and
    the revenue of the Games category 50. *)
Example scenario_unfiltered :
  let view := df_filtered (enrich scenario_table)
                (scenario_selection zone_options
                   (mkDate 2021 1 1) (mkDate 2022 6 1)) in
  total_revenue view = 50%Q /\
  total_installs view = 110 /\
  F64_eq (avg_rating view) (Fin (375 # 100)) /\
  category_revenue view = [("Games", 50%Q)].
Proof. vm_compute. repeat split. Qed.

(** The date scenario of the specification: restricted to 2021, the view
    has one row, total revenue 0 and average rating 4.5. *)
Example scenario_2021 :
  let view := df_filtered (enrich scenario_table)
                (scenario_selection zone_options
                   (mkDate 2021 1 1) (mkDate 2021 12 31)) in
  List.length (body view) = 1%nat /\
  total_revenue view = 0%Q /\
  avg_rating view = Fin (9 # 2).
Proof. vm_compute. repeat split. Qed.

(** C5: the view is the table with rows left out, and filtering the view
    again by the same selection changes nothing. *)
Theorem filter_subset_idempotent (df : Frame) (sel : Selection) :
  subseq (body (df_filtered df sel)) (body df) /\
  (forall r, In r (body (df_filtered df sel)) -> In r (body df)) /\
  df_filtered (df_filtered df sel) sel = df_filtered df sel.
Proof.
  split; [apply subseq_filter|]. split.
  - apply subseq_In, subseq_filter.
  - unfold df_filtered at 1. simpl zone_dummies.
    unfold df_filtered at 3. f_equal.
    rewrite (filter_ext _ _ (row_mask_view df sel)).
    simpl. apply filter_idem.
Qed.

Lemma filter_all_false {A : Type} (f : A -> bool) (l : list A) :
  (forall x, f x = false) -> filter f l = [].
Proof.
  intro H. induction l as [|x l IH]; simpl; [reflexivity|].
  rewrite H. exact IH.
Qed.

Lemma row_mask_emptied (df : Frame) (sel : Selection) (r : ERow) :
  category_filter sel = [] \/ region_filter sel = [] ->
  row_mask df sel r = false.
Proof.
  unfold row_mask. intros [-> | ->]; simpl.
  - reflexivity.
  - rewrite andb_false_r. reflexivity.
Qed.

Lemma zone_columns_emptied (df : Frame) (sel : Selection) :
  zone_filter sel = [] -> zone_columns df sel = [].
Proof. unfold zone_columns. intros ->. reflexivity. Qed.

(** C2, as the code has it: for a table with at least one row and both
    dates picked, emptying the category or the region multiselect empties
    the view, whatever the other widgets hold, and the run then completes
    with zero sums, a NaN mean, zero counts per zone column and empty
    tables.  Emptying the zone multiselect does not: the mask then has no
    zone term and the other three terms alone decide. *)
Theorem emptied_multiselect (t : Source) (picked : Sidebar)
  (first last : Date) (more : list Date) :
  body (enrich t) <> [] ->
  picked_dates picked = first :: last :: more ->
  (picked_categories picked = [] \/ picked_regions picked = [] ->
   body (df_filtered (enrich t) (selection_with picked first last)) = [] /\
   aggregate (df_filtered (enrich t) (selection_with picked first last)) =
     empty_panels
       (df_filtered (enrich t) (selection_with picked first last)) /\
   forall data_file_path page,
     dashboard data_file_path (Some t) picked page =
       ((page ++ [st_write ("Looking for the data file at: "
                            ++ data_file_path)])%list,
        inr (empty_panels
               (df_filtered (enrich t)
                  (selection_with picked first last))))) /\
  (picked_zones picked = [] ->
   body (df_filtered (enrich t) (selection_with picked first last)) =
     filter (mask_without_zones (selection_with picked first last))
            (body (enrich t))).
Proof.
  intros Hrows Hdates. split.
  - intro H.
    assert (Hb : body (df_filtered (enrich t)
                         (selection_with picked first last)) = []).
    { cbn [body df_filtered]. apply filter_all_false. intro r.
      apply row_mask_emptied. exact H. }
    split; [exact Hb|].
    split; [apply aggregate_empty, Hb|].
    intros p page.
    rewrite (dashboard_completes p t picked first last more page Hrows Hdates).
    rewrite (aggregate_empty _ Hb). reflexivity.
  - intro H. cbn [body df_filtered]. apply filter_ext. intro r.
    unfold row_mask, mask_without_zones.
    rewrite (zone_columns_emptied _ (selection_with picked first last) H).
    reflexivity.
Qed.

Lemma emptied_multiselect_witness :
  body (df_filtered (enrich scenario_table)
          (mkSelection [] ["NA"; "EU"] zone_options
             (mkDate 2021 1 1, mkDate 2022 12 31))) = [] /\
  body (df_filtered (enrich scenario_table)
          (scenario_selection [] (mkDate 2021 1 1) (mkDate 2022 12 31))) =
    body (enrich scenario_table).
Proof.
  split.
  - apply (proj1 (emptied_multiselect scenario_table
                    (mkSidebar [] ["NA"; "EU"] zone_options
                       [mkDate 2021 1 1; mkDate 2022 12 31])
                    (mkDate 2021 1 1) (mkDate 2022 12 31) []
                    ltac:(discriminate) eq_refl)).
    left. reflexivity.
  - refine (eq_trans
              (proj2 (emptied_multiselect scenario_table
                        (mkSidebar ["Games"] ["NA"; "EU"] []
                           [mkDate 2021 1 1; mkDate 2022 12 31])
                        (mkDate 2021 1 1) (mkDate 2022 12 31) []
                        ltac:(discriminate) eq_refl) eq_refl) _).
    reflexivity.
Defined.

(** C2 as worded fails: with only the zone multiselect emptied, both rows
    of the scenario table stay in the view. *)
Lemma emptied_zones_keep_rows : ~ spec_emptied_claim.
Proof.
  intro H.
  specialize (H scenario_table
                (scenario_selection [] (mkDate 2021 1 1) (mkDate 2022 12 31))).
  simpl in H. specialize (H (or_intror (or_intror eq_refl))).
  vm_compute in H. discriminate H.
Qed.

(* ------------------------------------------------------------------ *)
(** ** Zone indicators *)

Lemma unique_In (l : list string) (x : string) : In x (unique l) <-> In x l.
Proof.
  induction l as [|y l IH]; simpl; [tauto|].
  rewrite filter_In, IH, negb_true_iff, String.eqb_neq.
  destruct (String.string_dec y x); intuition congruence.
Qed.

Lemma unique_NoDup (l : list string) : NoDup (unique l).
Proof.
  induction l as [|y l IH]; simpl; constructor.
  - rewrite filter_In, negb_true_iff, String.eqb_neq. tauto.
  - apply NoDup_filter, IH.
Qed.

Lemma dummy_values_In (zs : list string) (x : string) :
  In x (dummy_values zs) <-> In x zs.
Proof. unfold dummy_values. rewrite stable_sort_In. apply unique_In. Qed.

Lemma dummy_values_NoDup (zs : list string) : NoDup (dummy_values zs).
Proof.
  unfold dummy_values.
  apply Permutation_NoDup with (unique zs).
  - apply Permutation_sym, stable_sort_perm.
  - apply unique_NoDup.
Qed.

Lemma append_inj_r (p a b : string) : p ++ a = p ++ b -> a = b.
Proof.
  induction p as [|c p IH]; simpl; intro H.
  - exact H.
  - inversion H. apply IH. assumption.
Qed.

Lemma zone_mapping_name (z : Zone) : zone_mapping z = zone_prefix ++ zone_name z.
Proof. destruct z; reflexivity. Qed.

Lemma zone_name_inj (a b : Zone) : zone_name a = zone_name b -> a = b.
Proof. destruct a, b; simpl; intro H; try reflexivity; discriminate H. Qed.

(** The cell of column [c] is true exactly for the column named after the
    zone of the row. *)
Lemma flag_enrich_zoned (vals : list string) (r : Row) (z c : string) :
  flag c (enrich_zoned vals (r, z)) = true <->
  In z vals /\ c = zone_prefix ++ z.
Proof.
  unfold flag, enrich_zoned, dummy_cells; cbn [flags snd fst].
  induction vals as [|v vals IH]; cbn [map find fst snd].
  - split; [discriminate | intros [[] _]].
  - destruct (String.eqb (zone_prefix ++ v) c) eqn:E.
    + apply String.eqb_eq in E. subst c. cbn [snd].
      rewrite String.eqb_eq. split.
      * intros ->. split; [left; reflexivity | reflexivity].
      * intros [_ H]. apply append_inj_r in H. congruence.
    + apply String.eqb_neq in E. rewrite IH. cbn [In]. split.
      * intros [H1 H2]. split; [right; exact H1 | exact H2].
      * intros [[H1|H1] H2]; [subst; contradiction | split; assumption].
Qed.

Lemma flag_enrich_zoned_eqb (vals : list string) (rz : Row * string)
  (v : string) :
  In v vals ->
  flag (zone_prefix ++ v) (enrich_zoned vals rz) = String.eqb (snd rz) v.
Proof.
  intro Hv. destruct rz as [r z]. cbn [snd].
  destruct (String.eqb z v) eqn:E.
  - apply String.eqb_eq in E. subst. apply flag_enrich_zoned. auto.
  - destruct (flag (zone_prefix ++ v) (enrich_zoned vals (r, z))) eqn:F;
      [|reflexivity].
    apply flag_enrich_zoned in F. destruct F as [_ F].
    apply append_inj_r in F. subst. rewrite String.eqb_refl in E. discriminate.
Qed.

Lemma filter_all_false_in {A : Type} (f : A -> bool) (l : list A) :
  (forall x, In x l -> f x = false) -> filter f l = [].
Proof.
  induction l as [|x l IH]; simpl; intro H; [reflexivity|].
  rewrite (H x (or_introl eq_refl)). apply IH.
  intros y Hy. apply H. right; exact Hy.
Qed.

Lemma filter_singleton {A : Type} (f : A -> bool) (l : list A) (x : A) :
  NoDup l -> In x l -> (forall y, In y l -> (f y = true <-> y = x)) ->
  filter f l = [x].
Proof.
  induction l as [|a l IH]; intros Hnd Hin Hf; [destruct Hin|].
  inversion Hnd as [|? ? Hnot Hnd']; subst. simpl.
  destruct (f a) eqn:E.
  - apply (Hf a (or_introl eq_refl)) in E. subst a. f_equal.
    apply filter_all_false_in. intros y Hy.
    destruct (f y) eqn:Ey; [|reflexivity].
    apply (Hf y (or_intror Hy)) in Ey. subst. contradiction.
  - destruct Hin as [->|Hin].
    + rewrite (proj2 (Hf x (or_introl eq_refl)) eq_refl) in E. discriminate.
    + apply IH; auto. intros y Hy. apply Hf. right; exact Hy.
Qed.

Lemma sum_b2z_count {A : Type} (f : A -> bool) (l : list A) :
  fold_right (fun c acc => Z.b2z (f c) + acc) 0 l =
  Z.of_nat (List.length (filter f l)).
Proof.
  induction l as [|x l IH]; simpl; [reflexivity|].
  rewrite IH. destruct (f x); simpl Z.b2z; simpl List.length; lia.
Qed.

Lemma filter_map_comm {A B : Type} (f : B -> bool) (g : A -> B) (l : list A) :
  filter f (map g l) = map g (filter (fun x => f (g x)) l).
Proof.
  induction l as [|x l IH]; simpl; [reflexivity|].
  destruct (f (g x)); simpl; rewrite IH; reflexivity.
Qed.

Lemma append_prefix_inj_NoDup (p : string) (l : list string) :
  NoDup l -> NoDup (map (String.append p) l).
Proof.
  induction 1 as [|x l Hnot _ IH]; simpl; constructor; [|exact IH].
  rewrite in_map_iff. intros [y [Hy Hin]].
  apply append_inj_r in Hy. subst. contradiction.
Qed.

(** C6: with the [economic_zone] column in the table, every row has
    exactly one true indicator cell, the one of the column named after its
    own zone, so that removing the prefix or inverting [zone_mapping] gives
    the zone back; without the column nothing is expanded and the mask has
    no zone term. *)
Theorem zone_indicators :
  (forall recs rz,
     In rz recs ->
     let df := enrich (WithZone recs) in
     let er := enrich_zoned (dummy_values (map snd recs)) rz in
     In er (body df) /\
     indicator_sum df er = 1 /\
     (forall c, flag c er = true <-> c = zone_prefix ++ snd rz) /\
     In (zone_prefix ++ snd rz) (zone_dummies df) /\
     (forall z, snd rz = zone_name z ->
                forall z', flag (zone_mapping z') er = true <-> z' = z)) /\
  (forall recs sel,
     let df := enrich (WithoutZone recs) in
     zone_dummies df = [] /\
     (forall r, In r (body df) -> flags r = []) /\
     zone_columns df sel = [] /\
     body (df_filtered df sel) = filter (mask_without_zones sel) (body df)).
Proof.
  split.
  - intros recs [r z] Hin df er.
    assert (Hz : In z (dummy_values (map snd recs))).
    { apply dummy_values_In. apply (in_map snd) in Hin. exact Hin. }
    assert (Hflag : forall c, flag c er = true <-> c = zone_prefix ++ z).
    { intro c. unfold er. rewrite flag_enrich_zoned. tauto. }
    assert (Hcol : In (zone_prefix ++ z) (zone_dummies df)).
    { unfold df. cbn [enrich zone_dummies].
      apply (in_map (String.append zone_prefix)), Hz. }
    split; [unfold df, er; cbn [enrich body]; apply in_map, Hin|].
    split.
    { unfold indicator_sum. rewrite sum_b2z_count.
      rewrite (filter_singleton _ _ (zone_prefix ++ z)).
      - reflexivity.
      - unfold df. cbn [enrich zone_dummies].
        apply append_prefix_inj_NoDup, dummy_values_NoDup.
      - exact Hcol.
      - intros c _. apply Hflag. }
    split; [exact Hflag|].
    split; [exact Hcol|].
    cbn [snd]. intros z0 -> z'. rewrite Hflag, zone_mapping_name. split.
    + intro H. apply append_inj_r in H. apply zone_name_inj, H.
    + intros ->. reflexivity.
  - intros recs sel df.
    assert (Hcols : zone_columns df sel = []).
    { unfold zone_columns, df. simpl enrich. unfold columns. simpl zone_dummies.
      apply filter_all_false_in. intros c Hc.
      apply in_map_iff in Hc. destruct Hc as [z [<- _]].
      destruct z; reflexivity. }
    split; [reflexivity|].
    split.
    { intros r Hr. simpl in Hr. apply in_map_iff in Hr.
      destruct Hr as [x [<- _]]. reflexivity. }
    split; [exact Hcols|].
    simpl. apply filter_ext. intro r.
    unfold row_mask, mask_without_zones.
    fold df. rewrite Hcols. reflexivity.
Qed.

Lemma zone_indicators_witness :
  indicator_sum (enrich scenario_table) scenario_row_B = 1 /\
  zone_columns (enrich (WithoutZone []))
    (scenario_selection zone_options (mkDate 2021 1 1) (mkDate 2022 12 31))
  = [].
Proof.
  split.
  - apply (proj1 zone_indicators
             [ (mkRow "Games" "App A" "Dev A" "NA" 100 0 (9 # 2)
                      (mkTimestamp 2021 1 1 0), "Developed");
               (mkRow "Games" "App B" "Dev B" "EU" 10 5 3
                      (mkTimestamp 2022 6 1 0), "Emerging") ]
             (mkRow "Games" "App B" "Dev B" "EU" 10 5 3
                    (mkTimestamp 2022 6 1 0), "Emerging")).
    simpl. right. left. reflexivity.
  - apply (proj2 zone_indicators).
Defined.

(* ------------------------------------------------------------------ *)
(** ** Zone panel *)

Lemma contains_zone_prefix (v : string) :
  contains zone_prefix (zone_prefix ++ v) = true.
Proof.
  unfold zone_prefix. cbn [String.append contains]. 
  assert (H : String.prefix "economic_zone_" ("economic_zone_" ++ v) = true).
  { simpl. destruct v; reflexivity. }
  cbn [String.append] in H. rewrite H. reflexivity.
Qed.

Lemma zone_revenue_cols_enriched (recs : list (Row * string)) (sel : Selection) :
  zone_revenue_cols (df_filtered (enrich (WithZone recs)) sel) =
  map (String.append zone_prefix) (dummy_values (map snd recs)).
Proof.
  unfold zone_revenue_cols, columns. cbn [zone_dummies df_filtered enrich].
  rewrite !filter_app.
  change (filter (contains zone_prefix) base_columns) with (@nil string).
  change (filter (contains zone_prefix) ["revenue"]) with (@nil string).
  cbn [app].
  generalize (dummy_values (map snd recs)). intro vals.
  induction vals as [|v vs IH]; [reflexivity|].
  cbn [map filter]. rewrite contains_zone_prefix, IH. reflexivity.
Qed.

(** C10: the value the zone panel shows for a zone column is the sum of
    that boolean column over the view, which is the number of filtered
    records in the zone (the panel is empty for a table without the zone
    column); it is not their revenue: in the scenario table the Emerging
    bar is 1 while the Emerging revenue is 50. *)
Theorem zone_panel_counts_rows :
  (forall view,
     zone_revenue view =
     map (fun c => (str_remove zone_prefix c,
                    Z.of_nat (List.length (filter (flag c) (body view)))))
         (filter (contains zone_prefix) (columns view))) /\
  (forall recs sel,
     zone_revenue (df_filtered (enrich (WithoutZone recs)) sel) = []) /\
  (forall recs sel,
     zone_revenue (df_filtered (enrich (WithZone recs)) sel) =
     map (fun v => (str_remove zone_prefix (zone_prefix ++ v),
                    Z.of_nat (List.length (filtered_in_zone recs sel v))))
         (dummy_values (map snd recs))) /\
  (let view := df_filtered (enrich scenario_table)
                 (scenario_selection zone_options
                    (mkDate 2021 1 1) (mkDate 2022 12 31)) in
   zone_revenue view = [("Developed", 1); ("Emerging", 1)] /\
   (zone_revenue_sum view "economic_zone_Emerging" == 50)%Q).
Proof.
  split; [reflexivity|]. split; [reflexivity|]. split.
  - intros recs sel. unfold zone_revenue.
    rewrite zone_revenue_cols_enriched, map_map.
    apply map_ext_in. intros v Hv. f_equal.
    unfold sum_flags, filtered_in_zone. f_equal.
    cbn [body df_filtered enrich].
    rewrite !filter_map_comm, length_map.
    f_equal. apply filter_ext_in. intros rz _.
    apply flag_enrich_zoned_eqb, Hv.
  - vm_compute. repeat split.
Qed.

(* ------------------------------------------------------------------ *)
(** ** Top developers *)

Lemma Qge_bool_total (x y : Q) : Qle_bool y x = false -> Qle_bool x y = true.
Proof.
  intro H. apply Qle_bool_iff, Qlt_le_weak, Qnot_le_lt.
  intro Hle. apply Qle_bool_iff in Hle. congruence.
Qed.

Lemma Qge_bool_trans (x y z : Q) :
  Qle_bool y x = true -> Qle_bool z y = true -> Qle_bool z x = true.
Proof.
  rewrite !Qle_bool_iff. intros H1 H2. apply Qle_trans with y; assumption.
Qed.

Section Descending.
Context {A : Type}.
Variable val : A -> Q.

Let desc (a b : A) : bool := Qle_bool (val b) (val a).

Lemma sort_desc_sorted (l : list A) :
  StronglySorted (fun a b => (val b <= val a)%Q) (stable_sort desc l).
Proof.
  apply StronglySorted_weaken with (fun a b => desc a b = true).
  - intros a b H. apply Qle_bool_iff, H.
  - apply stable_sort_sorted.
    + intros x y. apply Qge_bool_total.
    + intros x y z H1 H2. unfold desc in *.
      apply Qge_bool_trans with (val y); assumption.
Qed.

Lemma top_sorted (n : nat) (l : list A) :
  StronglySorted (fun a b => (val b <= val a)%Q)
                 (firstn n (stable_sort desc l)).
Proof. apply StronglySorted_firstn, sort_desc_sorted. Qed.

Lemma top_In (n : nat) (l : list A) (x : A) :
  In x (firstn n (stable_sort desc l)) -> In x l.
Proof. intro H. apply (stable_sort_In desc), In_firstn with n, H. Qed.

Lemma top_rest (n : nat) (l : list A) :
  Permutation (firstn n (stable_sort desc l) ++ skipn n (stable_sort desc l))
              l /\
  forall a b, In a (firstn n (stable_sort desc l)) ->
              In b (skipn n (stable_sort desc l)) ->
              (val b <= val a)%Q.
Proof.
  split.
  - rewrite firstn_skipn. apply stable_sort_perm.
  - pose proof (sort_desc_sorted l) as H.
    rewrite <- (firstn_skipn n (stable_sort desc l)) in H.
    apply StronglySorted_app_inv in H. apply H.
Qed.

Lemma top_dominates (n : nat) (l : list A) (x y : A) :
  In x (firstn n (stable_sort desc l)) -> In y l ->
  ~ In y (firstn n (stable_sort desc l)) -> (val y <= val x)%Q.
Proof.
  intros Hx Hy Hny. destruct (top_rest n l) as [_ H]. apply H; [exact Hx|].
  apply (stable_sort_In desc) in Hy.
  rewrite <- (firstn_skipn n (stable_sort desc l)) in Hy.
  apply in_app_or in Hy. tauto.
Qed.
End Descending.

Lemma developer_revenue_value (view : Frame) (d : string) (v : Q) :
  In (d, v) (developer_revenue view) ->
  v = sumQ (map revenue (rows_of_developer view d)).
Proof.
  intro H. apply (groupby_sum_value _ _ _ _ String.eqb_eq) in H.
  rewrite H, filter_map_comm, map_map. reflexivity.
Qed.

Lemma developer_revenue_key (view : Frame) (d : string) :
  In d (map fst (developer_revenue view)) <->
  exists r, In r (body view) /\ Developer_Id (base r) = d.
Proof.
  unfold developer_revenue.
  rewrite (groupby_sum_keys _ _ _ _ String.eqb_eq), map_map, in_map_iff.
  cbn [fst]. split; intros [r [H1 H2]]; exists r; auto.
Qed.

(** C7, as the code has it: the top-developers list has at most 10
    entries, no developer twice, and sums that never increase down the
    list (equal sums may follow each other); each entry carries the summed
    revenue of its developer over the view, and no developer left out has
    a larger sum than one listed. *)
Theorem top_developers (view : Frame) :
  top_devs_shape (top_devs view) /\
  (forall d v, In (d, v) (top_devs view) ->
     v = sumQ (map revenue (rows_of_developer view d)) /\
     exists r, In r (body view) /\ Developer_Id (base r) = d) /\
  (forall x y, In x (top_devs view) -> In y (developer_revenue view) ->
     ~ In y (top_devs view) -> (snd y <= snd x)%Q).
Proof.
  unfold top_devs, nlargest. split; [|split].
  - split; [apply firstn_le_length|]. split.
    + apply (top_sorted snd).
    + rewrite <- firstn_map. apply NoDup_firstn.
      apply Permutation_NoDup with (map fst (developer_revenue view)).
      * apply Permutation_map, Permutation_sym, stable_sort_perm.
      * apply (groupby_sum_NoDup _ _ _ _ String.eqb_eq).
  - intros d v H. apply (top_In snd) in H. split.
    + apply developer_revenue_value, H.
    + apply developer_revenue_key. apply (in_map fst) in H. exact H.
  - intros x y. apply (top_dominates snd).
Qed.

Lemma top_developers_witness :
  top_devs_shape
    (top_devs (df_filtered (enrich free_apps_table)
                     (select_all ["Tools"] ["NA"]))) /\
  (0 == sumQ (map revenue
                (rows_of_developer
                   (df_filtered (enrich free_apps_table)
                      (select_all ["Tools"] ["NA"])) "Dev B")))%Q.
Proof.
  destruct (top_developers (df_filtered (enrich free_apps_table)
                              (select_all ["Tools"] ["NA"])))
    as [Hshape [Hsum _]].
  split; [exact Hshape|].
  destruct (Hsum "Dev B" 0%Q) as [<- _].
  - vm_compute. right. left. reflexivity.
  - reflexivity.
Defined.

(** C7 as worded fails: two developers of free apps both sum to 0 and
    both are listed, so the list is not strictly descending. *)
Lemma top_developers_not_strict :
  ~ (forall view, spec_top_devs_shape (top_devs view)).
Proof.
  intro H.
  specialize (H (df_filtered (enrich free_apps_table)
                   (select_all ["Tools"] ["NA"]))).
  destruct H as [_ [H _]].
  assert (E : top_devs (df_filtered (enrich free_apps_table)
                              (select_all ["Tools"] ["NA"]))
              = [("Dev A", 0%Q); ("Dev B", 0%Q)]).
  { vm_compute. reflexivity. }
  rewrite E in H. inversion H as [|? ? _ Hf]; subst.
  inversion Hf as [|? ? Hlt _]; subst.
  simpl in Hlt. exact (Qlt_irrefl 0 Hlt).
Qed.

(* ------------------------------------------------------------------ *)
(** ** Revenue growth *)

Lemma Permutation_filter {A : Type} (f : A -> bool) (l1 l2 : list A) :
  Permutation l1 l2 -> Permutation (filter f l1) (filter f l2).
Proof.
  induction 1 as [|x l1 l2 _ IH|x y l|l1 l2 l3 _ IH1 _ IH2]; simpl.
  - apply perm_nil.
  - destruct (f x); [apply perm_skip|]; exact IH.
  - destruct (f x), (f y); try apply Permutation_refl. apply perm_swap.
  - apply perm_trans with (filter f l2); assumption.
Qed.

Section Regrouping.
Context {K : Type}.
Variable keqb : K -> K -> bool.
Variable kleb : K -> K -> bool.
Hypothesis keqb_eq : forall a b, keqb a b = true <-> a = b.
Variable P : K -> bool.

Let sum_where (l : list (K * Q)) : Q :=
  sumQ (map snd (filter (fun kv => P (fst kv)) l)).

Lemma accumulate_sum_where (k : K) (v : Q) (acc : list (K * Q)) :
  (sum_where (accumulate keqb Qplus 0 k v acc) ==
   sum_where acc + (if P k then v else 0))%Q.
Proof.
  unfold sum_where.
  induction acc as [|[k0 v0] acc IH]; cbn [accumulate].
  - cbn [filter fst map]. destruct (P k); cbn [map snd].
    + rewrite sumQ_cons. unfold sumQ. simpl. ring.
    + unfold sumQ. simpl. ring.
  - destruct (keqb k k0) eqn:E.
    + apply keqb_eq in E. subst k0. cbn [filter fst].
      destruct (P k); cbn [map snd].
      * rewrite !sumQ_cons. ring.
      * ring.
    + cbn [filter fst]. destruct (P k0); cbn [map snd].
      * rewrite !sumQ_cons, IH. ring.
      * exact IH.
Qed.

Lemma factorize_sum_where (l : list (K * Q)) :
  (sum_where (factorize_sum keqb Qplus 0 l) == sum_where l)%Q.
Proof.
  induction l as [|x l IH] using rev_ind.
  - reflexivity.
  - rewrite factorize_sum_snoc, accumulate_sum_where, IH.
    unfold sum_where. rewrite filter_app, map_app, sumQ_app.
    cbn [filter]. destruct (P (fst x)); cbn [map].
    + rewrite (sumQ_cons (snd x) []). change (sumQ []) with 0%Q. ring.
    + reflexivity.
Qed.

(** Grouping keeps the total of every class of keys. *)
Lemma groupby_sum_where (l : list (K * Q)) :
  (sum_where (groupby_sum keqb kleb Qplus 0 l) == sum_where l)%Q.
Proof.
  transitivity (sum_where (factorize_sum keqb Qplus 0%Q l));
    [|apply factorize_sum_where].
  unfold sum_where.
  apply sumQ_perm, Permutation_map, Permutation_filter, groupby_sum_perm.
Qed.
End Regrouping.

Lemma yearly_revenue_value (view : Frame) (y : Z) (v : Q) :
  In (y, v) (yearly_revenue view) ->
  (v == sumQ (map revenue (rows_of_year view y)))%Q.
Proof.
  intro H. apply (groupby_sum_value _ _ _ _ Z.eqb_eq) in H. subst v.
  rewrite filter_map_comm, map_map.
  transitivity
    (sumQ (map snd
             (filter (fun kv : Timestamp * Q =>
                        (fun t => Z.eqb (year t) y) (fst kv))
                     (map (fun r => (Released (base r), revenue r))
                          (body view))))).
  - exact (groupby_sum_where ts_eqb ts_leb ts_eqb_eq
             (fun t => Z.eqb (year t) y) _).
  - rewrite filter_map_comm, map_map. reflexivity.
Qed.

Lemma yearly_revenue_key (view : Frame) (y : Z) :
  In y (map fst (yearly_revenue view)) <->
  exists r, In r (body view) /\ year (Released (base r)) = y.
Proof.
  unfold yearly_revenue.
  rewrite (groupby_sum_keys _ _ _ _ Z.eqb_eq), map_map, in_map_iff.
  cbn [fst]. split.
  - intros [[t q] [Hy Hin]]. cbn [fst] in Hy.
    apply (in_map fst) in Hin. unfold historical_revenue in Hin.
    apply (proj1 (groupby_sum_keys ts_eqb ts_leb Qplus 0%Q ts_eqb_eq _ _))
      in Hin.
    rewrite map_map in Hin. apply in_map_iff in Hin.
    destruct Hin as [r [Hr Hin]]. cbn [fst] in Hr.
    exists r. split; [exact Hin | congruence].
  - intros [r [Hin Hy]].
    assert (Hk : In (Released (base r)) (map fst (historical_revenue view))).
    { unfold historical_revenue.
      apply (proj2 (groupby_sum_keys ts_eqb ts_leb Qplus 0%Q ts_eqb_eq _ _)).
      rewrite map_map. apply in_map_iff. exists r. auto. }
    apply in_map_iff in Hk. destruct Hk as [p [Hp Hin']].
    exists p. split; [congruence | exact Hin'].
Qed.

Lemma keys_increasing (l : list (Z * Q)) :
  StronglySorted (fun a b => Z.leb (fst a) (fst b) = true) l ->
  NoDup (map fst l) ->
  StronglySorted Z.lt (map fst l).
Proof.
  induction 1 as [|a l _ IH Ha]; simpl; intro Hnd; constructor.
  - apply IH. inversion Hnd; assumption.
  - inversion Hnd as [|? ? Hnot _]; subst.
    rewrite Forall_forall in *. intros y Hy.
    apply in_map_iff in Hy. destruct Hy as [b [<- Hb]].
    pose proof (Ha b Hb) as Hle. apply Z.leb_le in Hle.
    assert (fst a <> fst b).
    { intro E. apply Hnot. rewrite E. apply in_map, Hb. }
    lia.
Qed.

Lemma yearly_revenue_sorted (view : Frame) :
  StronglySorted Z.lt (map fst (yearly_revenue view)).
Proof.
  apply keys_increasing.
  - unfold yearly_revenue, groupby_sum. apply stable_sort_sorted.
    + intros x y H. apply Z.leb_le. apply Z.leb_gt in H. lia.
    + intros x y z H1 H2. apply Z.leb_le. apply Z.leb_le in H1, H2. lia.
  - apply (groupby_sum_NoDup _ _ _ _ Z.eqb_eq).
Qed.

Lemma pct_change_from_next {K : Type} (s : list (K * Q)) :
  forall (prev : Q) (i : nat) (k : K) (v : Q) (k' : K) (v' : Q),
    nth_error s i = Some (k, v) ->
    nth_error s (S i) = Some (k', v') ->
    nth_error (pct_change_from prev s) (S i) = Some (k', fsub (fdiv v' v) 1).
Proof.
  induction s as [|[k0 v0] s IH]; intros prev i k v k' v' H1 H2.
  - destruct i; discriminate H1.
  - destruct i as [|i].
    + simpl in H1. inversion H1; subst.
      destruct s as [|[k1 v1] s]; simpl in H2; [discriminate|].
      inversion H2; subst. reflexivity.
    + simpl in H1. cbn [pct_change_from].
      change (nth_error (pct_change_from v0 s) (S i) =
              Some (k', fsub (fdiv v' v) 1)).
      apply IH with k; assumption.
Qed.

Lemma pct_change_next {K : Type} (s : list (K * Q)) (i : nat)
  (k : K) (v : Q) (k' : K) (v' : Q) :
  nth_error s i = Some (k, v) ->
  nth_error s (S i) = Some (k', v') ->
  nth_error (pct_change s) (S i) = Some (k', fsub (fdiv v' v) 1).
Proof.
  destruct s as [|[k0 v0] s]; [destruct i; discriminate|].
  intros H1 H2. cbn [pct_change].
  change (nth_error (pct_change_from v0 s) i = Some (k', fsub (fdiv v' v) 1)).
  destruct i as [|i].
  - simpl in H1. inversion H1; subst.
    destruct s as [|[k1 v1] s]; simpl in H2; [discriminate|].
    inversion H2; subst. reflexivity.
  - simpl in H1, H2. apply pct_change_from_next with k; assumption.
Qed.

Lemma growth_series_first (s : list (Z * Q)) (y : Z) (v : Q) :
  nth_error s 0 = Some (y, v) ->
  nth_error (growth_series s) 0 = Some (y, Fin 0).
Proof.
  destruct s as [|[y0 v0] s]; simpl; intro H; [discriminate|].
  inversion H; subst. reflexivity.
Qed.

Lemma growth_series_next (s : list (Z * Q)) (i : nat) (y : Z) (v : Q)
  (y' : Z) (v' : Q) :
  nth_error s i = Some (y, v) ->
  nth_error s (S i) = Some (y', v') ->
  nth_error (growth_series s) (S i) =
    Some (y', fscale (fillna 0 (fsub (fdiv v' v) 1)) 100).
Proof.
  intros H1 H2. unfold growth_series.
  rewrite nth_error_map, (pct_change_next s i y v y' v' H1 H2). reflexivity.
Qed.

Lemma growth_rate_finite (v v' : Q) :
  ~ (v == 0)%Q ->
  fscale (fillna 0 (fsub (fdiv v' v) 1)) 100 = Fin ((v' / v - 1) * 100)%Q.
Proof.
  intro H. unfold fdiv.
  destruct (Qeq_bool v 0) eqn:E.
  - apply Qeq_bool_iff in E. contradiction.
  - reflexivity.
Qed.

Lemma pct_change_from_keys {K : Type} (s : list (K * Q)) :
  forall prev, map fst (pct_change_from prev s) = map fst s.
Proof.
  induction s as [|[k v] s IH]; intro prev; [reflexivity|].
  simpl. rewrite IH. reflexivity.
Qed.

Lemma pct_change_keys {K : Type} (s : list (K * Q)) :
  map fst (pct_change s) = map fst s.
Proof.
  destruct s as [|[k v] s]; [reflexivity|].
  simpl. rewrite pct_change_from_keys. reflexivity.
Qed.

Lemma growth_series_keys (s : list (Z * Q)) :
  map fst (growth_series s) = map fst s.
Proof.
  unfold growth_series. rewrite map_map. cbn [fst].
  rewrite <- pct_change_keys. reflexivity.
Qed.

(** C8: the growth series has one entry per year in which a row of the
    view was released, in increasing order of the year; it is built from
    the revenue summed per year, with 0 for the first year and, for every
    later year, the ratio to the year before minus one, NaN replaced by 0,
    times 100, which after a year of non-zero revenue is the percent
    change; yearly revenue of 50 then 100 gives 0 then 100. *)
Theorem revenue_growth :
  (forall view,
     yearly_growth view = growth_series (yearly_revenue view) /\
     map fst (yearly_growth view) = map fst (yearly_revenue view) /\
     StronglySorted Z.lt (map fst (yearly_revenue view)) /\
     (forall y, In y (map fst (yearly_revenue view)) <->
                exists r, In r (body view) /\ year (Released (base r)) = y) /\
     (forall y v, In (y, v) (yearly_revenue view) ->
                  (v == sumQ (map revenue (rows_of_year view y)))%Q)) /\
  (forall s y v,
     nth_error s 0 = Some (y, v) ->
     nth_error (growth_series s) 0 = Some (y, Fin 0)) /\
  (forall s i y v y' v',
     nth_error s i = Some (y, v) ->
     nth_error s (S i) = Some (y', v') ->
     nth_error (growth_series s) (S i) =
       Some (y', fscale (fillna 0 (fsub (fdiv v' v) 1)) 100) /\
     (~ (v == 0)%Q ->
      nth_error (growth_series s) (S i) =
        Some (y', Fin ((v' / v - 1) * 100)%Q))) /\
  series_eq (growth_series [(2021, 50%Q); (2022, 100%Q)])
            [(2021, Fin 0); (2022, Fin 100)] /\
  (let view := df_filtered (enrich growth_table)
                 (select_all ["Games"; "Tools"] ["NA"; "EU"]) in
   yearly_revenue view = [(2021, 50%Q); (2022, 100%Q)] /\
   series_eq (yearly_growth view) [(2021, Fin 0); (2022, Fin 100)]).
Proof.
  split; [|split; [|split; [|split]]].
  - intro view. split; [reflexivity|]. split.
    + apply growth_series_keys.
    + split; [apply yearly_revenue_sorted|].
      split; [apply yearly_revenue_key | apply yearly_revenue_value].
  - apply growth_series_first.
  - intros s i y v y' v' H1 H2.
    rewrite (growth_series_next s i y v y' v' H1 H2).
    split; [reflexivity|].
    intro Hv. rewrite (growth_rate_finite v v' Hv). reflexivity.
  - vm_compute. repeat constructor.
  - vm_compute. repeat constructor.
Qed.

Lemma revenue_growth_witness :
  nth_error (growth_series [(2021, 50%Q); (2022, 100%Q)]) 0
    = Some (2021, Fin 0) /\
  nth_error (growth_series [(2021, 50%Q); (2022, 100%Q)]) 1
    = Some (2022, Fin ((100 / 50 - 1) * 100)%Q).
Proof.
  destruct revenue_growth as [_ [Hfirst [Hnext _]]].
  split.
  - apply (Hfirst [(2021, 50%Q); (2022, 100%Q)] 2021 50%Q). reflexivity.
  - apply (Hnext [(2021, 50%Q); (2022, 100%Q)] 0%nat 2021 50%Q 2022 100%Q).
    + reflexivity.
    + reflexivity.
    + intro H. discriminate H.
Defined.

(* ------------------------------------------------------------------ *)
(** ** Opportunity score *)

Lemma fold_pair_sum (l : list (Q * Z)) :
  forall (q : Q) (z : Z),
    fold_left (fun a b => (Qplus (fst a) (fst b), int64_add (snd a) (snd b)))
              l (q, z) =
    (fold_left Qplus (map fst l) q, fold_left int64_add (map snd l) z).
Proof.
  induction l as [|[x n] l IH]; intros q z; [reflexivity|].
  simpl. apply IH.
Qed.

Lemma opportunity_sums_value (view : Frame) (k : string * string)
  (rv : Q) (ins : Z) :
  In (k, (rv, ins)) (opportunity_sums view) ->
  rv = sumQ (map revenue (rows_of_market view k)) /\
  ins = sum_int64 (map (fun r => Installs (base r)) (rows_of_market view k)).
Proof.
  intro H. apply (groupby_sum_value _ _ _ _ pair_eqb_eq) in H.
  rewrite fold_pair_sum, filter_map_comm, !map_map in H.
  inversion H. split; reflexivity.
Qed.

Lemma opportunity_sums_key (view : Frame) (k : string * string) :
  In k (map fst (opportunity_sums view)) <->
  exists r, In r (body view) /\ (geo_region (base r), Category (base r)) = k.
Proof.
  unfold opportunity_sums.
  rewrite (groupby_sum_keys _ _ _ _ pair_eqb_eq), map_map, in_map_iff.
  cbn [fst]. split; intros [r [H1 H2]]; exists r; auto.
Qed.

Lemma opportunity_score_keys (view : Frame) :
  map (fun o => (o_region o, o_category o)) (opportunity_score view) =
  map fst (opportunity_sums view).
Proof.
  unfold opportunity_score. rewrite map_map. apply map_ext.
  intros [[reg cat] sums]. reflexivity.
Qed.

(** C9: every (region, category) pair of the view gets one row whose
    score is half its summed revenue plus half its summed installs; the
    panel shows the rows in descending order of score, ten of them or all
    when there are fewer, and no row left out scores higher than a row
    shown. *)
Theorem top_opportunities_ranked (view : Frame) :
  (forall o, In o (opportunity_score view) ->
     score o = ((1 # 2) * o_revenue o + (1 # 2) * inject_Z (o_installs o))%Q /\
     o_revenue o =
       sumQ (map revenue (rows_of_market view (o_region o, o_category o))) /\
     o_installs o =
       sum_int64 (map (fun r => Installs (base r))
                      (rows_of_market view (o_region o, o_category o)))) /\
  NoDup (map (fun o => (o_region o, o_category o)) (opportunity_score view)) /\
  (forall k, In k (map (fun o => (o_region o, o_category o))
                       (opportunity_score view)) <->
             exists r, In r (body view) /\
                       (geo_region (base r), Category (base r)) = k) /\
  List.length (top_opportunities view) =
    Nat.min 10 (List.length (opportunity_score view)) /\
  StronglySorted (fun a b => (score b <= score a)%Q)
                 (top_opportunities view) /\
  exists rest,
    Permutation (top_opportunities view ++ rest) (opportunity_score view) /\
    forall a b, In a (top_opportunities view) -> In b rest ->
                (score b <= score a)%Q.
Proof.
  split; [|split; [|split; [|split; [|split]]]].
  - intros o Ho. unfold opportunity_score in Ho. apply in_map_iff in Ho.
    destruct Ho as [[[reg cat] [rv ins]] [<- Hg]]. cbn.
    destruct (opportunity_sums_value view (reg, cat) rv ins Hg) as [H1 H2].
    repeat split; assumption.
  - rewrite opportunity_score_keys.
    apply (groupby_sum_NoDup _ _ _ _ pair_eqb_eq).
  - intro k. rewrite opportunity_score_keys. apply opportunity_sums_key.
  - unfold top_opportunities.
    rewrite length_firstn, stable_sort_length. reflexivity.
  - apply (top_sorted score).
  - exists (skipn 10 (stable_sort (fun a b => Qle_bool (score b) (score a))
                                  (opportunity_score view))).
    apply (top_rest score).
Qed.

(** The scores of the scenario table: (NA, Games) scores 50 and comes
    before (EU, Games), which scores 30. *)
Example scenario_opportunities :
  map (fun o => (o_region o, Qred (score o)))
      (top_opportunities
         (df_filtered (enrich scenario_table)
            (select_all ["Games"] ["NA"; "EU"]))) =
  [("NA", 50%Q); ("EU", 30%Q)].
Proof. vm_compute. reflexivity. Qed.

Lemma top_opportunities_ranked_witness :
  let view := df_filtered (enrich scenario_table)
                (select_all ["Games"] ["NA"; "EU"]) in
  List.length (top_opportunities view) = 2%nat /\
  StronglySorted (fun a b => (score b <= score a)%Q)
                 (top_opportunities view).
Proof.
  intro view.
  destruct (top_opportunities_ranked view) as [_ [_ [_ [Hlen [Hsorted _]]]]].
  split; [exact Hlen | exact Hsorted].
Defined.

(* ------------------------------------------------------------------ *)
(** ** Order of timestamps and of strings *)

Lemma ts_leb_lex (a b : Timestamp) :
  ts_leb a b = true <->
  year a < year b \/
  (year a = year b /\
   (month a < month b \/
    (month a = month b /\
     (day a < day b \/ (day a = day b /\ nanos a <= nanos b))))).
Proof.
  unfold ts_leb, ts_compare.
  destruct (Z.compare_spec (year a) (year b));
    [destruct (Z.compare_spec (month a) (month b));
      [destruct (Z.compare_spec (day a) (day b));
        [destruct (Z.compare_spec (nanos a) (nanos b))| |]| |]| |];
    split; intro; try reflexivity; try discriminate; lia.
Qed.

Lemma ts_leb_trans (a b c : Timestamp) :
  ts_leb a b = true -> ts_leb b c = true -> ts_leb a c = true.
Proof. rewrite !ts_leb_lex. lia. Qed.

Lemma ts_leb_total (a b : Timestamp) :
  ts_leb a b = false -> ts_leb b a = true.
Proof.
  intro H. apply ts_leb_lex.
  assert (Hn : ~ ts_leb a b = true) by congruence.
  rewrite ts_leb_lex in Hn. lia.
Qed.

Lemma ts_leb_refl (a : Timestamp) : ts_leb a a = true.
Proof. apply ts_leb_lex. lia. Qed.

Lemma ascii_compare_refl (a : ascii) : Ascii.compare a a = Eq.
Proof. unfold Ascii.compare. apply N.compare_refl. Qed.

Lemma ascii_compare_lt_trans (a b c : ascii) :
  Ascii.compare a b = Lt -> Ascii.compare b c = Lt -> Ascii.compare a c = Lt.
Proof.
  unfold Ascii.compare. rewrite !N.compare_lt_iff. apply N.lt_trans.
Qed.

Lemma string_compare_refl (s : string) : String.compare s s = Eq.
Proof.
  induction s as [|a s IH]; simpl; [reflexivity|].
  rewrite ascii_compare_refl. exact IH.
Qed.

Lemma string_compare_lt_trans (s1 : string) :
  forall s2 s3, String.compare s1 s2 = Lt -> String.compare s2 s3 = Lt ->
                String.compare s1 s3 = Lt.
Proof.
  induction s1 as [|a s1 IH]; intros [|b s2] [|c s3]; simpl;
    try discriminate; try reflexivity.
  destruct (Ascii.compare a b) eqn:E1; try discriminate;
    destruct (Ascii.compare b c) eqn:E2; try discriminate; intros H1 H2.
  - apply Ascii.compare_eq_iff in E1, E2. subst.
    rewrite ascii_compare_refl. apply IH with s2; assumption.
  - apply Ascii.compare_eq_iff in E1. subst. rewrite E2. reflexivity.
  - apply Ascii.compare_eq_iff in E2. subst. rewrite E1. reflexivity.
  - rewrite (ascii_compare_lt_trans a b c E1 E2). reflexivity.
Qed.

Lemma string_compare_gt_lt (a b : string) :
  String.compare a b = Gt <-> String.compare b a = Lt.
Proof.
  rewrite (String.compare_antisym a b).
  destruct (String.compare b a); simpl; split; congruence.
Qed.

Lemma string_leb_total (a b : string) :
  String.leb a b = false -> String.leb b a = true.
Proof.
  intro H. destruct (String.leb_total a b) as [H'|H']; congruence.
Qed.

Lemma string_leb_trans (a b c : string) :
  String.leb a b = true -> String.leb b c = true -> String.leb a c = true.
Proof.
  unfold String.leb.
  destruct (String.compare a b) eqn:E1; try discriminate;
    destruct (String.compare b c) eqn:E2; try discriminate; intros _ _.
  - apply String.compare_eq_iff in E1, E2. subst.
    rewrite string_compare_refl. reflexivity.
  - apply String.compare_eq_iff in E1. subst. rewrite E2. reflexivity.
  - apply String.compare_eq_iff in E2. subst. rewrite E1. reflexivity.
  - rewrite (string_compare_lt_trans a b c E1 E2). reflexivity.
Qed.

Lemma filter_all_true {A : Type} (f : A -> bool) (l : list A) :
  (forall x, In x l -> f x = true) -> filter f l = l.
Proof.
  induction l as [|x l IH]; simpl; intro H; [reflexivity|].
  rewrite (H x (or_introl eq_refl)). f_equal. apply IH.
  intros y Hy. apply H. right; exact Hy.
Qed.

Lemma subseq_filter_imp {A : Type} (f g : A -> bool) (l : list A) :
  (forall x, In x l -> f x = true -> g x = true) ->
  subseq (filter f l) (filter g l).
Proof.
  induction l as [|x l IH]; simpl; intro H; [constructor|].
  assert (IH' : subseq (filter f l) (filter g l)).
  { apply IH. intros y Hy. apply H. right; exact Hy. }
  destruct (f x) eqn:Ef.
  - rewrite (H x (or_introl eq_refl) Ef). apply subseq_keep, IH'.
  - destruct (g x); [apply subseq_skip|]; exact IH'.
Qed.

(* ------------------------------------------------------------------ *)
(** ** More on the filter *)

Lemma not_base_column (z : Zone) :
  ~ In (zone_mapping z) (base_columns ++ ["revenue"])%list.
Proof.
  destruct z; cbn; intros H;
    repeat (destruct H as [H|H]; [discriminate H|]); exact H.
Qed.

Lemma zone_column_present (recs : list (Row * string)) (z : Zone) :
  In (zone_mapping z) (columns (enrich (WithZone recs))) <->
  exists rz, In rz recs /\ snd rz = zone_name z.
Proof.
  unfold columns. cbn [enrich zone_dummies].
  rewrite app_assoc, in_app_iff, in_map_iff. split.
  - intros [H|[v [Hv Hin]]]; [destruct (not_base_column z H)|].
    rewrite zone_mapping_name in Hv. apply append_inj_r in Hv. subst v.
    apply dummy_values_In, in_map_iff in Hin.
    destruct Hin as [rz [H1 H2]]. exists rz. auto.
  - intros [rz [Hin Hz]]. right. exists (zone_name z). split.
    + symmetry. apply zone_mapping_name.
    + apply dummy_values_In. rewrite <- Hz. apply in_map, Hin.
Qed.

Lemma zone_columns_plain (recs : list Row) (sel : Selection) :
  zone_columns (enrich (WithoutZone recs)) sel = [].
Proof.
  unfold zone_columns, columns. cbn [enrich zone_dummies].
  apply filter_all_false_in. intros c Hc.
  apply in_map_iff in Hc. destruct Hc as [z [<- _]].
  destruct z; reflexivity.
Qed.

Lemma nil_iff_no_member {A : Type} (l : list A) :
  l = [] <-> forall x, ~ In x l.
Proof.
  split.
  - intros -> x [].
  - destruct l as [|a l]; [reflexivity|].
    intro H. destruct (H a). left; reflexivity.
Qed.

(** X17: the zone term of the mask, read on the zone cells of the data file: a
    record passes when its zone is one of the selected zones, and every
    record passes when no selected zone occurs in the table at all. *)
Theorem zone_term_on_source (recs : list (Row * string)) (sel : Selection)
  (rz : Row * string) :
  In rz recs ->
  (row_mask (enrich (WithZone recs)) sel
            (enrich_zoned (dummy_values (map snd recs)) rz) = true <->
   In (Category (fst rz)) (category_filter sel) /\
   In (geo_region (fst rz)) (region_filter sel) /\
   ((forall z rz', In z (zone_filter sel) -> In rz' recs ->
                   snd rz' <> zone_name z) \/
    (exists z, In z (zone_filter sel) /\ snd rz = zone_name z)) /\
   ts_le (Timestamp_of_date (fst (date_range sel))) (Released (fst rz)) /\
   ts_le (Released (fst rz)) (Timestamp_of_date (snd (date_range sel)))).
Proof.
  intro Hin. rewrite row_mask_spec. cbn [base enrich_zoned].
  assert (Hz : In (snd rz) (dummy_values (map snd recs))).
  { apply dummy_values_In, in_map, Hin. }
  assert (Hnone :
    zone_columns (enrich (WithZone recs)) sel = [] <->
    forall z rz', In z (zone_filter sel) -> In rz' recs ->
                  snd rz' <> zone_name z).
  { rewrite nil_iff_no_member. split.
    - intros H z rz' Hzf Hrz' Heq.
      apply (H (zone_mapping z)). apply zone_columns_In.
      exists z. split; [exact Hzf|]. split; [reflexivity|].
      apply zone_column_present. exists rz'. auto.
    - intros H c Hc. apply zone_columns_In in Hc.
      destruct Hc as [z [Hzf [-> Hcol]]].
      apply zone_column_present in Hcol. destruct Hcol as [rz' [H1 H2]].
      exact (H z rz' Hzf H1 H2). }
  assert (Hsome :
    (exists z, In z (zone_filter sel) /\
               In (zone_mapping z) (columns (enrich (WithZone recs))) /\
               flag (zone_mapping z)
                    (enrich_zoned (dummy_values (map snd recs)) rz) = true) <->
    exists z, In z (zone_filter sel) /\ snd rz = zone_name z).
  { split; intros [z [Hzf H]]; exists z; (split; [exact Hzf|]).
    - destruct H as [_ H]. destruct rz as [r z0].
      apply flag_enrich_zoned in H. destruct H as [_ H].
      rewrite zone_mapping_name in H. apply append_inj_r in H.
      symmetry. exact H.
    - split.
      + apply zone_column_present. exists rz. auto.
      + destruct rz as [r z0]. cbn [snd] in *. subst z0.
        apply flag_enrich_zoned. split; [exact Hz | apply zone_mapping_name]. }
  rewrite Hnone, Hsome. tauto.
Qed.

Lemma zone_term_on_source_witness :
  row_mask (enrich scenario_table)
    (scenario_selection [Emerging] (mkDate 2021 1 1) (mkDate 2022 12 31))
    scenario_row_B = true.
Proof.
  apply (zone_term_on_source
           [ (mkRow "Games" "App A" "Dev A" "NA" 100 0 (9 # 2)
                    (mkTimestamp 2021 1 1 0), "Developed");
             (mkRow "Games" "App B" "Dev B" "EU" 10 5 3
                    (mkTimestamp 2022 6 1 0), "Emerging") ]
           (scenario_selection [Emerging] (mkDate 2021 1 1) (mkDate 2022 12 31))
           (mkRow "Games" "App B" "Dev B" "EU" 10 5 3
                  (mkTimestamp 2022 6 1 0), "Emerging")).
  - right. left. reflexivity.
  - cbn. split; [left; reflexivity|]. split; [right; left; reflexivity|].
    split.
    + right. exists Emerging. split; [left; reflexivity | reflexivity].
    + split; discriminate.
Defined.

(** X15: widening the selection, with the zones unchanged, only adds rows: the
    narrower view is the wider one with rows left out. *)
Theorem filter_widens (df : Frame) (sel sel' : Selection) :
  widens sel sel' ->
  subseq (body (df_filtered df sel)) (body (df_filtered df sel')).
Proof.
  intros [Hc [Hr [Hz [Hlo Hhi]]]].
  apply subseq_filter_imp. intros r _ H.
  apply row_mask_spec in H. apply row_mask_spec.
  destruct H as [H1 [H2 [H3 [H4 H5]]]].
  assert (Hcols : zone_columns df sel' = zone_columns df sel).
  { unfold zone_columns. rewrite Hz. reflexivity. }
  rewrite Hcols, <- Hz.
  split; [apply Hc, H1|]. split; [apply Hr, H2|]. split; [exact H3|].
  apply ts_leb_le in Hlo, Hhi, H4, H5.
  split; apply ts_leb_le;
    [apply ts_leb_trans with (Timestamp_of_date (fst (date_range sel)))
    |apply ts_leb_trans with (Timestamp_of_date (snd (date_range sel)))];
    assumption.
Qed.

Lemma filter_widens_witness :
  subseq
    (body (df_filtered (enrich scenario_table)
             (scenario_selection zone_options
                (mkDate 2021 1 1) (mkDate 2021 12 31))))
    (body (df_filtered (enrich scenario_table)
             (scenario_selection zone_options
                (mkDate 2021 1 1) (mkDate 2022 12 31)))).
Proof.
  apply filter_widens. unfold widens. cbn.
  split; [intros x H; exact H|]. split; [intros x H; exact H|].
  split; [reflexivity|]. split; discriminate.
Defined.

(** X16: a date interval whose start lies after its end selects nothing. *)
Theorem reversed_interval_empty (df : Frame) (sel : Selection) :
  ts_leb (Timestamp_of_date (fst (date_range sel)))
         (Timestamp_of_date (snd (date_range sel))) = false ->
  body (df_filtered df sel) = [].
Proof.
  intro H. cbn [body df_filtered]. apply filter_all_false_in. intros r _.
  destruct (row_mask df sel r) eqn:E; [|reflexivity].
  unfold row_mask, between in E. rewrite !andb_true_iff in E.
  destruct E as [_ [E1 E2]].
  rewrite (ts_leb_trans _ _ _ E1 E2) in H. discriminate H.
Qed.

Lemma reversed_interval_empty_witness :
  body (df_filtered (enrich scenario_table)
          (scenario_selection zone_options
             (mkDate 2022 12 31) (mkDate 2021 1 1))) = [].
Proof. apply reversed_interval_empty. reflexivity. Defined.

(* ------------------------------------------------------------------ *)
(** ** Sidebar defaults *)

Lemma ts_max_ge (a b : Timestamp) :
  ts_leb a (ts_max a b) = true /\ ts_leb b (ts_max a b) = true.
Proof.
  unfold ts_max. destruct (ts_leb a b) eqn:E.
  - split; [exact E | apply ts_leb_refl].
  - split; [apply ts_leb_refl | apply ts_leb_total, E].
Qed.

Lemma ts_min_le (a b : Timestamp) :
  ts_leb (ts_min a b) a = true /\ ts_leb (ts_min a b) b = true.
Proof.
  unfold ts_min. destruct (ts_leb a b) eqn:E.
  - split; [apply ts_leb_refl | exact E].
  - split; [apply ts_leb_total, E | apply ts_leb_refl].
Qed.

Lemma fold_ts_max_ge (ts : list Timestamp) :
  forall t x, In x (t :: ts) -> ts_leb x (fold_left ts_max ts t) = true.
Proof.
  induction ts as [|a ts IH]; intros t x Hx.
  - destruct Hx as [<-|[]]. apply ts_leb_refl.
  - cbn [fold_left]. destruct (ts_max_ge t a) as [H1 H2].
    destruct Hx as [->|[->|Hx]].
    + apply ts_leb_trans with (ts_max x a); [exact H1|].
      apply IH. left; reflexivity.
    + apply ts_leb_trans with (ts_max t x); [exact H2|].
      apply IH. left; reflexivity.
    + apply IH. right; exact Hx.
Qed.

Lemma fold_ts_min_le (ts : list Timestamp) :
  forall t x, In x (t :: ts) -> ts_leb (fold_left ts_min ts t) x = true.
Proof.
  induction ts as [|a ts IH]; intros t x Hx.
  - destruct Hx as [<-|[]]. apply ts_leb_refl.
  - cbn [fold_left]. destruct (ts_min_le t a) as [H1 H2].
    destruct Hx as [->|[->|Hx]].
    + apply ts_leb_trans with (ts_min x a); [|exact H1].
      apply IH. left; reflexivity.
    + apply ts_leb_trans with (ts_min t x); [|exact H2].
      apply IH. left; reflexivity.
    + apply IH. right; exact Hx.
Qed.

Lemma fold_ts_max_In (ts : list Timestamp) :
  forall t, In (fold_left ts_max ts t) (t :: ts).
Proof.
  induction ts as [|a ts IH]; intro t; [left; reflexivity|].
  cbn [fold_left]. destruct (IH (ts_max t a)) as [H|H].
  - unfold ts_max in H at 1. destruct (ts_leb t a).
    + right. left. exact H.
    + left. exact H.
  - right. right. exact H.
Qed.

Lemma fold_ts_min_In (ts : list Timestamp) :
  forall t, In (fold_left ts_min ts t) (t :: ts).
Proof.
  induction ts as [|a ts IH]; intro t; [left; reflexivity|].
  cbn [fold_left]. destruct (IH (ts_min t a)) as [H|H].
  - unfold ts_min in H at 1. destruct (ts_leb t a).
    + left. exact H.
    + right. left. exact H.
  - right. right. exact H.
Qed.

Lemma released_max_spec (df : Frame) (last : Timestamp) :
  released_max df = Some last ->
  (exists r, In r (body df) /\ Released (base r) = last) /\
  forall r, In r (body df) -> ts_leb (Released (base r)) last = true.
Proof.
  unfold released_max.
  destruct (map (fun r => Released (base r)) (body df)) as [|t ts] eqn:E;
    [discriminate|].
  intro H. inversion H; subst last. split.
  - pose proof (fold_ts_max_In ts t) as Hin. rewrite <- E in Hin.
    apply in_map_iff in Hin. destruct Hin as [r [H1 H2]]. exists r. auto.
  - intros r Hr. apply fold_ts_max_ge. rewrite <- E.
    apply (in_map (fun r => Released (base r))), Hr.
Qed.

Lemma released_min_spec (df : Frame) (first : Timestamp) :
  released_min df = Some first ->
  (exists r, In r (body df) /\ Released (base r) = first) /\
  forall r, In r (body df) -> ts_leb first (Released (base r)) = true.
Proof.
  unfold released_min.
  destruct (map (fun r => Released (base r)) (body df)) as [|t ts] eqn:E;
    [discriminate|].
  intro H. inversion H; subst first. split.
  - pose proof (fold_ts_min_In ts t) as Hin. rewrite <- E in Hin.
    apply in_map_iff in Hin. destruct Hin as [r [H1 H2]]. exists r. auto.
  - intros r Hr. apply fold_ts_min_le. rewrite <- E.
    apply (in_map (fun r => Released (base r))), Hr.
Qed.

Lemma midnight_date_of (t : Timestamp) :
  nanos t = 0 -> Timestamp_of_date (date_of t) = t.
Proof. destruct t as [y m d n]. cbn. intros ->. reflexivity. Qed.

Lemma default_selection_spec (df : Frame) (sel : Selection) :
  default_selection df = Some sel ->
  exists first last,
    released_min df = Some first /\ released_max df = Some last /\
    category_filter sel = unique (map (fun r => Category (base r)) (body df)) /\
    region_filter sel = unique (map (fun r => geo_region (base r)) (body df)) /\
    zone_filter sel = zone_options /\
    date_range sel = (date_of first, date_of last).
Proof.
  unfold default_selection.
  destruct (released_min df) as [first|]; [|discriminate].
  destruct (released_max df) as [last|]; [|discriminate].
  intro H. inversion H; subst sel. exists first, last. cbn. repeat split.
Qed.

Lemma default_selection_defined (df : Frame) :
  body df <> [] <-> exists sel, default_selection df = Some sel.
Proof.
  unfold default_selection, released_min, released_max.
  destruct (body df) as [|r rs]; cbn.
  - split; [intro H; destruct (H eq_refl) | intros [sel H]; discriminate H].
  - split; [intros _; eexists; reflexivity | intros _; discriminate].
Qed.

(** X13: with the widgets untouched nothing is filtered out, provided every
    release timestamp is a day at midnight and every zone cell is one of
    the four zone names. *)
Theorem default_view_is_whole_table (t : Source) (sel : Selection) :
  default_selection (enrich t) = Some sel ->
  released_at_midnight (enrich t) ->
  zones_standard t ->
  body (df_filtered (enrich t) sel) = body (enrich t).
Proof.
  intros Hsel Hmid Hzones.
  destruct (default_selection_spec _ _ Hsel)
    as [first [last [Hmin [Hmax [Hc [Hr [Hz Hd]]]]]]].
  destruct (released_min_spec _ _ Hmin) as [[rf [Hrf1 Hrf2]] Hlo].
  destruct (released_max_spec _ _ Hmax) as [[rl [Hrl1 Hrl2]] Hhi].
  cbn [body df_filtered]. apply filter_all_true. intros r Hin.
  apply row_mask_spec. rewrite Hc, Hr, Hz, Hd. cbn [fst snd].
  split; [apply unique_In, (in_map (fun r => Category (base r))), Hin|].
  split; [apply unique_In, (in_map (fun r => geo_region (base r))), Hin|].
  split.
  - destruct t as [recs|recs].
    + right. cbn [enrich body] in Hin. apply in_map_iff in Hin.
      destruct Hin as [rz [<- Hrz]].
      destruct (Hzones rz Hrz) as [z Hzn]. exists z.
      split; [destruct z; cbn; tauto|].
      split; [apply zone_column_present; exists rz; auto|].
      destruct rz as [r0 z0]. cbn [snd] in Hzn. subst z0.
      apply flag_enrich_zoned. split; [|apply zone_mapping_name].
      apply dummy_values_In. apply (in_map snd) in Hrz. exact Hrz.
    + left. apply zone_columns_plain.
  - rewrite (midnight_date_of first), (midnight_date_of last).
    + split; apply ts_leb_le; [apply Hlo | apply Hhi]; exact Hin.
    + rewrite <- Hrl2. apply Hmid, Hrl1.
    + rewrite <- Hrf2. apply Hmid, Hrf1.
Qed.

Lemma default_view_is_whole_table_witness :
  body (df_filtered (enrich scenario_table)
          (scenario_selection zone_options
             (mkDate 2021 1 1) (mkDate 2022 6 1))) =
  body (enrich scenario_table).
Proof.
  apply default_view_is_whole_table.
  - reflexivity.
  - intros r [<-|[<-|[]]]; reflexivity.
  - intros rz [<-|[<-|[]]]; [exists Developed | exists Emerging]; reflexivity.
Defined.

(** X14: with the widgets untouched, a row released on the latest day of the
    table but after midnight is filtered out: the end of the default
    interval is that day at midnight. *)
Theorem default_drops_late_rows (df : Frame) (sel : Selection)
  (last : Timestamp) (r : ERow) :
  default_selection df = Some sel ->
  released_max df = Some last ->
  date_of (Released (base r)) = date_of last ->
  0 < nanos (Released (base r)) ->
  ~ In r (body (df_filtered df sel)).
Proof.
  intros Hsel Hmax Hday Hn Hin.
  destruct (default_selection_spec _ _ Hsel)
    as [first [last' [_ [Hmax' [_ [_ [_ Hd]]]]]]].
  rewrite Hmax in Hmax'. inversion Hmax'; subst last'.
  cbn [body df_filtered] in Hin. apply filter_In in Hin.
  destruct Hin as [_ Hm]. unfold row_mask, between in Hm.
  rewrite !andb_true_iff in Hm. destruct Hm as [_ [_ Hm]].
  rewrite Hd in Hm. cbn [snd] in Hm. rewrite <- Hday in Hm.
  apply ts_leb_lex in Hm. cbn in Hm. lia.
Qed.

Lemma default_drops_late_rows_witness :
  let late := enrich_plain
                (mkRow "Games" "App B" "Dev B" "EU" 10 5 3
                       (mkTimestamp 2022 6 1 3600000000000)) in
  let df := enrich (WithoutZone
                      [ mkRow "Games" "App A" "Dev A" "NA" 100 0 (9 # 2)
                              (mkTimestamp 2021 1 1 0);
                        mkRow "Games" "App B" "Dev B" "EU" 10 5 3
                              (mkTimestamp 2022 6 1 3600000000000) ]) in
  ~ In late (body (df_filtered df
                     (mkSelection ["Games"] ["NA"; "EU"] zone_options
                        (mkDate 2021 1 1, mkDate 2022 6 1)))).
Proof.
  intros late df.
  apply (default_drops_late_rows df _ (mkTimestamp 2022 6 1 3600000000000)).
  - reflexivity.
  - reflexivity.
  - reflexivity.
  - cbn. lia.
Defined.

(* ------------------------------------------------------------------ *)
(** ** Presenter *)

Lemma round_half_even_close (q : Q) :
  (inject_Z (round_half_even q) - (1 # 2) <= q)%Q /\
  (q <= inject_Z (round_half_even q) + (1 # 2))%Q.
Proof.
  unfold round_half_even.
  pose proof (Qfloor_le q) as Hlo. pose proof (Qlt_floor q) as Hhi.
  rewrite inject_Z_plus in Hhi. change (inject_Z 1) with 1%Q in Hhi.
  destruct (Qcompare (q - inject_Z (Qfloor q)) (1 # 2)) eqn:E.
  - apply Qeq_alt in E.
    destruct (Z.even (Qfloor q)); rewrite ?inject_Z_plus;
      change (inject_Z 1) with 1%Q; split; lra.
  - apply Qlt_alt in E. split; lra.
  - apply Qgt_alt in E. rewrite inject_Z_plus.
    change (inject_Z 1) with 1%Q. split; lra.
Qed.

Lemma round_half_even_sign (q : Q) :
  ((0 <= q)%Q -> 0 <= round_half_even q) /\
  ((q < 0)%Q -> round_half_even q <= 0).
Proof.
  pose proof (Qfloor_le q) as Hlo. pose proof (Qlt_floor q) as Hhi.
  assert (Hstep : Qfloor q <= round_half_even q <= Qfloor q + 1).
  { unfold round_half_even.
    destruct (Qcompare (q - inject_Z (Qfloor q)) (1 # 2));
      [destruct (Z.even (Qfloor q))| |]; lia. }
  split; intro H.
  - assert (0 <= Qfloor q); [|lia].
    rewrite <- (Qfloor_Z 0). apply Qfloor_resp_le, H.
  - assert (Qfloor q < 0); [|lia].
    rewrite Zlt_Qlt. change (inject_Z 0) with 0%Q. lra.
Qed.

Lemma string_of_uint_digits (d : Decimal.uint) :
  Forall (fun c => is_digit c = true)
         (list_ascii_of_string (NilEmpty.string_of_uint d)).
Proof. induction d; cbn; constructor; auto. Qed.

Lemma digits_are_digits (n : N) :
  Forall (fun c => is_digit c = true) (digits n).
Proof. apply string_of_uint_digits. Qed.

Lemma digits_nonempty (n : N) : digits n <> [].
Proof.
  unfold digits. destruct n as [|p]; [discriminate|].
  cbn [N.to_uint]. pose proof (Unsigned.to_uint_nonnil p) as H.
  destruct (Pos.to_uint p); [contradiction | discriminate ..].
Qed.

Lemma parse_digits_digits (n : N) : parse_digits (digits n) = Some n.
Proof.
  unfold parse_digits, digits.
  rewrite string_of_list_ascii_of_string, NilEmpty.usu. cbn.
  rewrite DecimalN.Unsigned.of_to. reflexivity.
Qed.

Lemma digit_not_comma (c : ascii) :
  is_digit c = true -> Ascii.eqb c ","%char = false.
Proof.
  unfold is_digit. rewrite existsb_exists. intros [d [Hd E]].
  apply Ascii.eqb_eq in E. subst d.
  cbn in Hd. repeat (destruct Hd as [<-|Hd]; [reflexivity|]). destruct Hd.
Qed.

Lemma digit_not_minus (c : ascii) :
  is_digit c = true -> Ascii.eqb c "-"%char = false.
Proof.
  unfold is_digit. rewrite existsb_exists. intros [d [Hd E]].
  apply Ascii.eqb_eq in E. subst d.
  cbn in Hd. repeat (destruct Hd as [<-|Hd]; [reflexivity|]). destruct Hd.
Qed.

(** Induction along the recursion of [commas_rev]. *)
Lemma commas_rev_ind (P : list ascii -> Prop) :
  P [] -> (forall a, P [a]) -> (forall a b, P [a; b]) ->
  (forall a b c, P [a; b; c]) ->
  (forall a b c d l, P (d :: l) -> P (a :: b :: c :: d :: l)) ->
  forall l, P l.
Proof.
  intros H0 H1 H2 H3 H4.
  assert (H : forall n l, (List.length l <= n)%nat -> P l).
  { induction n as [|n IH]; intros l Hl.
    - destruct l; [exact H0 | cbn in Hl; lia].
    - destruct l as [|a [|b [|c [|d l]]]]; auto.
      apply H4, IH. cbn in Hl |- *. lia. }
  intro l. apply (H (List.length l)). lia.
Qed.

Lemma drop_commas_commas_rev (l : list ascii) :
  Forall (fun c => is_digit c = true) l ->
  drop_commas (commas_rev l) = l.
Proof.
  unfold drop_commas.
  induction l as [|a|a b|a b c|a b c d l IH] using commas_rev_ind; intro H;
    try (apply filter_all_true; intros x Hx;
         rewrite Forall_forall in H;
         rewrite (digit_not_comma x (H x Hx)); reflexivity).
  change (commas_rev (a :: b :: c :: d :: l))
    with (a :: b :: c :: ","%char :: commas_rev (d :: l)).
  inversion H as [|? ? Ha H']; subst.
  inversion H' as [|? ? Hb H'']; subst.
  inversion H'' as [|? ? Hc H''']; subst.
  cbn [filter]. rewrite (digit_not_comma a Ha), (digit_not_comma b Hb),
    (digit_not_comma c Hc). cbn [negb].
  change (Ascii.eqb ","%char ","%char) with true. cbn [negb].
  rewrite (IH H'''). reflexivity.
Qed.

Lemma commas_rev_positions (l : list ascii) :
  Forall (fun c => is_digit c = true) l ->
  forall i c, nth_error (commas_rev l) i = Some c ->
              (c = ","%char <-> (i mod 4 = 3)%nat).
Proof.
  assert (Hdigit : forall (l : list ascii) i c,
             Forall (fun c => is_digit c = true) l ->
             (List.length l <= 3)%nat ->
             nth_error l i = Some c ->
             (c = ","%char <-> (i mod 4 = 3)%nat)).
  { intros l0 i c H Hlen Hn.
    assert (Hi : (i < List.length l0)%nat).
    { apply nth_error_Some. congruence. }
    apply nth_error_In in Hn. rewrite Forall_forall in H.
    pose proof (digit_not_comma c (H c Hn)) as Hc.
    rewrite (Nat.mod_small i 4) by lia. split; [|lia].
    intros ->. discriminate Hc. }
  induction l as [|a|a b|a b c0|a b c0 d l IH] using commas_rev_ind;
    intros H i c Hn; try (apply (Hdigit _ i c H); [cbn; lia | exact Hn]).
  change (commas_rev (a :: b :: c0 :: d :: l))
    with (a :: b :: c0 :: ","%char :: commas_rev (d :: l)) in Hn.
  inversion H as [|? ? Ha H']; subst.
  inversion H' as [|? ? Hb H'']; subst.
  inversion H'' as [|? ? Hc H''']; subst.
  destruct i as [|[|[|[|i]]]]; cbn [nth_error] in Hn.
  - inversion Hn; subst. pose proof (digit_not_comma c Ha) as E.
    split; [intros ->; discriminate E | cbn; lia].
  - inversion Hn; subst. pose proof (digit_not_comma c Hb) as E.
    split; [intros ->; discriminate E | cbn; lia].
  - inversion Hn; subst. pose proof (digit_not_comma c Hc) as E.
    split; [intros ->; discriminate E | cbn; lia].
  - inversion Hn; subst. split; reflexivity.
  - rewrite (IH H''' i c Hn).
    replace (S (S (S (S i)))) with (i + 1 * 4)%nat by lia.
    rewrite Nat.Div0.mod_add. reflexivity.
Qed.

Lemma commas_rev_last (l : list ascii) (x : ascii) :
  last (commas_rev l) x = last l x /\ (commas_rev l = [] -> l = []).
Proof.
  induction l as [|a|a b|a b c|a b c d l IH] using commas_rev_ind;
    try (split; [reflexivity | auto]).
  change (commas_rev (a :: b :: c :: d :: l))
    with (a :: b :: c :: ","%char :: commas_rev (d :: l)).
  split; [|discriminate].
  destruct IH as [IH1 IH2].
  destruct (commas_rev (d :: l)) as [|y ys] eqn:E;
    [discriminate (IH2 eq_refl)|].
  cbn [last] in IH1 |- *. exact IH1.
Qed.

Lemma group_thousands_head (d : ascii) (ds : list ascii) :
  exists rest, group_thousands (d :: ds) = d :: rest.
Proof.
  unfold group_thousands. cbn [rev].
  destruct (commas_rev_last (rev ds ++ [d]) d) as [Hlast Hnil].
  rewrite last_last in Hlast.
  destruct (commas_rev (rev ds ++ [d])) as [|y ys] eqn:E.
  - apply app_eq_nil in Hnil; [|reflexivity]. destruct Hnil; discriminate.
  - destruct (exists_last (l := y :: ys)) as [init [z Hz]]; [discriminate|].
    rewrite Hz in Hlast |- *. rewrite last_last in Hlast. subst z.
    rewrite rev_app_distr. cbn. exists (rev init). reflexivity.
Qed.

Lemma format_finite_chars (q : Q) :
  list_ascii_of_string (format_finite q) =
  (sign_of q ++
   group_thousands (digits (Z.to_N (Z.abs (round_half_even q)))))%list.
Proof. apply list_ascii_of_string_of_list_ascii. Qed.

Lemma drop_commas_group (ds : list ascii) :
  Forall (fun c => is_digit c = true) ds ->
  drop_commas (group_thousands ds) = ds.
Proof.
  intro H. unfold group_thousands, drop_commas. rewrite filter_rev.
  fold (drop_commas (commas_rev (rev ds))).
  rewrite drop_commas_commas_rev; [apply rev_involutive|].
  apply Forall_rev, H.
Qed.

Lemma format_finite_reads_back (q : Q) :
  parse_int (drop_commas (list_ascii_of_string (format_number (Fin q)))) =
    Some (round_half_even q).
Proof.
  cbn [format_number]. rewrite format_finite_chars.
  unfold drop_commas. rewrite filter_app.
  fold (drop_commas (group_thousands
                       (digits (Z.to_N (Z.abs (round_half_even q)))))).
  rewrite drop_commas_group by apply digits_are_digits.
  pose proof (digits_are_digits (Z.to_N (Z.abs (round_half_even q)))) as Hd.
  pose proof (digits_nonempty (Z.to_N (Z.abs (round_half_even q)))) as Hne.
  pose proof (parse_digits_digits (Z.to_N (Z.abs (round_half_even q))))
    as Hp.
  destruct (round_half_even_sign q) as [Hpos Hneg].
  unfold sign_of. destruct (Qle_bool 0 q) eqn:E.
  - apply Qle_bool_iff in E. cbn [filter app].
    destruct (digits (Z.to_N (Z.abs (round_half_even q)))) as [|d ds];
      [contradiction|].
    inversion Hd as [|? ? Hd1 _]; subst.
    unfold parse_int. rewrite (digit_not_minus d Hd1), Hp. cbn.
    rewrite Z2N.id by lia. f_equal. specialize (Hpos E). lia.
  - assert (Hq : (q < 0)%Q).
    { apply Qnot_le_lt. intro H. apply Qle_bool_iff in H. congruence. }
    cbn. rewrite Hp. cbn. rewrite Z2N.id by lia.
    f_equal. specialize (Hneg Hq). lia.
Qed.

Lemma round_half_even_tie (q : Q) :
  (q - inject_Z (Qfloor q) == 1 # 2)%Q -> Z.even (round_half_even q) = true.
Proof.
  intro H. unfold round_half_even. apply Qeq_alt in H. rewrite H.
  destruct (Z.even (Qfloor q)) eqn:E; [exact E|].
  rewrite Z.even_add, E. reflexivity.
Qed.

Lemma round_half_even_inject (m : Z) : round_half_even (inject_Z m) = m.
Proof.
  unfold round_half_even. rewrite Qfloor_Z.
  assert (E : Qcompare (inject_Z m - inject_Z m) (1 # 2) = Lt).
  { unfold Qcompare, Qminus, Qplus, Qopp, inject_Z.
    cbn [Qnum Qden]. apply Z.compare_lt_iff. lia. }
  rewrite E. reflexivity.
Qed.

Lemma round_half_even_comp (q q' : Q) :
  (q == q')%Q -> round_half_even q = round_half_even q'.
Proof.
  intro H. unfold round_half_even.
  rewrite (Qfloor_comp q q' H).
  assert (E : Qcompare (q - inject_Z (Qfloor q')) (1 # 2) =
              Qcompare (q' - inject_Z (Qfloor q')) (1 # 2)).
  { apply Qcompare_comp; [rewrite H|]; reflexivity. }
  rewrite E. reflexivity.
Qed.

Lemma F64_of_float_exact (x : float) (q : Q) :
  exact_value x = Some q -> F64_of_float x = Fin q.
Proof.
  unfold exact_value, F64_of_float.
  destruct (Prim2SF x); intro H; inversion H; reflexivity.
Qed.

Lemma format_int64_reads_back (n : Z) :
  Z.abs n < 2 ^ 64 ->
  parse_int (drop_commas (list_ascii_of_string (format_int64 n))) =
    Some (nearest_double n).
Proof.
  intro H. destruct (float_of_int64_value n H) as [q [E Hq]].
  unfold format_int64. rewrite (F64_of_float_exact _ _ E).
  rewrite format_finite_reads_back.
  rewrite (round_half_even_comp _ _ Hq), round_half_even_inject.
  reflexivity.
Qed.

(** X1: [format_number] loses nothing but the fraction of the float it is
    given: without its commas the text reads back as that float rounded to
    the nearest integer, at most one half away from it, the even neighbour
    on a tie.  An [int64] is first converted to float64, so the text reads
    back as the double nearest to the integer: the integer itself up to
    2^53, and at most 512 away from it for any [int64]. *)
Theorem format_number_round_trip :
  (forall q,
     parse_int (drop_commas (list_ascii_of_string (format_number (Fin q)))) =
       Some (round_half_even q) /\
     (inject_Z (round_half_even q) - (1 # 2) <= q)%Q /\
     (q <= inject_Z (round_half_even q) + (1 # 2))%Q /\
     ((q - inject_Z (Qfloor q) == 1 # 2)%Q ->
      Z.even (round_half_even q) = true)) /\
  (forall n, - 2 ^ 63 <= n < 2 ^ 63 ->
     parse_int (drop_commas (list_ascii_of_string (format_int64 n))) =
       Some (nearest_double n) /\
     Z.abs (nearest_double n - n) <= 512 /\
     (Z.abs n <= 2 ^ 53 -> nearest_double n = n)).
Proof.
  split.
  - intro q. split; [apply format_finite_reads_back|].
    split; [apply round_half_even_close|].
    split; [apply round_half_even_close | apply round_half_even_tie].
  - intros n Hn. split; [|split].
    + apply format_int64_reads_back. lia.
    + apply nearest_double_close, Hn.
    + apply nearest_double_exact.
Qed.

Lemma format_number_round_trip_witness :
  Z.even (round_half_even (5 # 2)) = true /\
  parse_int
    (drop_commas (list_ascii_of_string (format_int64 9007199254740993))) =
    Some 9007199254740992 /\
  nearest_double 1234567 = 1234567.
Proof.
  destruct format_number_round_trip as [Hfloat Hint].
  split; [|split].
  - apply (proj2 (proj2 (proj2 (Hfloat (5 # 2))))). reflexivity.
  - refine (eq_trans (proj1 (Hint 9007199254740993 _)) _).
    + split; vm_compute; [discriminate | reflexivity].
    + vm_compute. reflexivity.
  - refine (proj2 (proj2 (Hint 1234567 _)) _).
    + split; vm_compute; [discriminate | reflexivity].
    + vm_compute. discriminate.
Defined.

(** 9007199254740993 installs are shown as 9,007,199,254,740,992, and the
    count of the scenario table as it is. *)
Example format_int64_examples :
  format_int64 9007199254740993 = "9,007,199,254,740,992" /\
  format_int64 (- 9007199254740995) = "-9,007,199,254,740,996" /\
  format_int64 9223372036854775807 = "9,223,372,036,854,775,808" /\
  format_int64 110 = "110" /\
  format_int64 0 = "0".
Proof. vm_compute. repeat split; reflexivity. Qed.

(** X2: the commas of [format_number] stand between groups of three digits
    counted from the right: apart from a minus sign, the character at
    position [i] from the right end is a comma exactly when [i] is 3
    modulo 4, and the first character after the sign is a digit. *)
Theorem format_number_grouping (q : Q) :
  (forall i c,
     nth_error (rev (list_ascii_of_string (format_number (Fin q)))) i
       = Some c ->
     c <> "-"%char ->
     (c = ","%char <-> (i mod 4 = 3)%nat)) /\
  exists d rest,
    list_ascii_of_string (format_number (Fin q)) =
      (sign_of q ++ d :: rest)%list /\
    is_digit d = true.
Proof.
  cbn [format_number]. rewrite format_finite_chars.
  pose proof (digits_are_digits (Z.to_N (Z.abs (round_half_even q)))) as Hd.
  pose proof (digits_nonempty (Z.to_N (Z.abs (round_half_even q)))) as Hne.
  split.
  - intros i c. unfold group_thousands.
    rewrite rev_app_distr, rev_involutive, nth_error_app.
    destruct (Nat.ltb i _).
    + intros Hn _. revert Hn. apply commas_rev_positions, Forall_rev, Hd.
    + intros Hn Hc. apply nth_error_In, in_rev in Hn.
      unfold sign_of in Hn. destruct (Qle_bool 0 q); [destruct Hn|].
      destruct Hn as [<-|[]]. contradiction.
  - destruct (digits (Z.to_N (Z.abs (round_half_even q)))) as [|d ds];
      [contradiction|].
    destruct (group_thousands_head d ds) as [rest Hr].
    exists d, rest. rewrite Hr. split; [reflexivity|].
    inversion Hd; assumption.
Qed.

Lemma format_number_grouping_witness :
  format_number (Fin 1234567) = "1,234,567" /\
  (","%char = ","%char <-> (3 mod 4 = 3)%nat).
Proof.
  split; [reflexivity|].
  apply (proj1 (format_number_grouping 1234567) 3%nat ","%char).
  - reflexivity.
  - discriminate.
Defined.

(** X3: the three KPI tiles of a view without rows read "$0", "0" and "nan". *)
Theorem metrics_of_empty_view (view : Frame) :
  body view = [] ->
  metrics view =
    {| m_total_revenue := "$0";
       m_total_installs := "0";
       m_avg_rating := "nan" |}.
Proof.
  destruct view as [zd b]. cbn [body]. intros ->. reflexivity.
Qed.

Lemma metrics_of_empty_view_witness :
  m_avg_rating
    (metrics (df_filtered (enrich scenario_table)
                (mkSelection [] ["NA"; "EU"] zone_options
                   (mkDate 2021 1 1, mkDate 2022 12 31)))) = "nan".
Proof.
  rewrite metrics_of_empty_view; reflexivity.
Defined.

Lemma digits_single (k : N) :
  (k < 10)%N -> exists c, digits k = [c] /\ is_digit c = true.
Proof.
  intro H. destruct k as [|p]; [eexists; split; reflexivity|].
  do 4 (try destruct p as [p|p|]); try lia;
    eexists; split; reflexivity.
Qed.

(** X4: the rating tile shows the mean rounded to hundredths, with exactly two
    digits after the point: the digits before the point, the tens digit and
    the units digit of the hundredths make up the rounded value, which is
    at most half a hundredth away from the mean. *)
Theorem rating_display (q : Q) :
  let h := Z.to_N (Z.abs (round_half_even (q * 100))) in
  exists d1 d2,
    list_ascii_of_string (format_2f (Fin q)) =
      (sign_of q ++ digits (h / 100) ++ ["."%char; d1; d2])%list /\
    parse_digits (digits (h / 100)) = Some (h / 100)%N /\
    parse_digits [d1] = Some ((h mod 100) / 10)%N /\
    parse_digits [d2] = Some (h mod 10)%N /\
    (h = 100 * (h / 100) + 10 * ((h mod 100) / 10) + h mod 10)%N /\
    (inject_Z (round_half_even (q * 100)) - (1 # 2) <= q * 100)%Q /\
    (q * 100 <= inject_Z (round_half_even (q * 100)) + (1 # 2))%Q.
Proof.
  intro h.
  assert (H1 : ((h mod 100) / 10 < 10)%N).
  { apply N.Div0.div_lt_upper_bound.
    change (10 * 10)%N with 100%N. apply N.mod_lt. discriminate. }
  assert (H2 : (h mod 10 < 10)%N) by (apply N.mod_lt; discriminate).
  destruct (digits_single _ H1) as [d1 [E1 _]].
  destruct (digits_single _ H2) as [d2 [E2 _]].
  exists d1, d2. split.
  - cbn [format_2f]. fold h. rewrite list_ascii_of_string_of_list_ascii.
    rewrite E1, E2. reflexivity.
  - split; [apply parse_digits_digits|].
    split; [rewrite <- E1; apply parse_digits_digits|].
    split; [rewrite <- E2; apply parse_digits_digits|].
    split; [|apply round_half_even_close].
    pose proof (N.div_mod h 100) as Hd.
    pose proof (N.div_mod (h mod 100) 10) as Hm.
    assert (Hmm : ((h mod 100) mod 10 = h mod 10)%N).
    { change 100%N with (10 * 10)%N.
      rewrite N.Div0.mod_mul_r, N.mul_comm, N.Div0.mod_add.
      apply N.Div0.mod_mod. }
    lia.
Qed.

(* ------------------------------------------------------------------ *)
(** ** Revenue breakdowns *)

Section KeyOrder.
Context {K V : Type}.
Variable keqb : K -> K -> bool.
Variable kleb : K -> K -> bool.
Variable vadd : V -> V -> V.
Variable vzero : V.
Hypothesis keqb_eq : forall a b, keqb a b = true <-> a = b.
Hypothesis kleb_total : forall a b, kleb a b = false -> kleb b a = true.
Hypothesis kleb_trans :
  forall a b c, kleb a b = true -> kleb b c = true -> kleb a c = true.

Lemma strictly_sorted_keys (l : list (K * V)) :
  StronglySorted (fun a b => kleb (fst a) (fst b) = true) l ->
  NoDup (map fst l) ->
  StronglySorted (fun a b => kleb (fst a) (fst b) = true /\ fst a <> fst b) l.
Proof.
  induction 1 as [|a l _ IH Ha]; cbn [map]; intro Hnd; constructor.
  - apply IH. inversion Hnd; assumption.
  - inversion Hnd as [|? ? Hnot _]; subst.
    rewrite Forall_forall in *. intros b Hb. split; [apply Ha, Hb|].
    intro E. apply Hnot. rewrite E. apply in_map, Hb.
Qed.

(** The groups of [groupby_sum] come in strictly increasing key order. *)
Lemma groupby_sum_sorted (l : list (K * V)) :
  StronglySorted (fun a b => kleb (fst a) (fst b) = true /\ fst a <> fst b)
                 (groupby_sum keqb kleb vadd vzero l).
Proof.
  apply strictly_sorted_keys.
  - unfold groupby_sum. apply stable_sort_sorted.
    + intros x y. apply kleb_total.
    + intros x y z. apply kleb_trans.
  - apply groupby_sum_NoDup, keqb_eq.
Qed.

Lemma groupby_sum_In (l : list (K * V)) (k : K) (v : V) :
  In (k, v) (groupby_sum keqb kleb vadd vzero l) <->
  In k (map fst l) /\
  v = fold_left vadd (map snd (filter (fun kv => keqb (fst kv) k) l)) vzero.
Proof.
  split.
  - intro H. split.
    + apply (groupby_sum_keys keqb kleb vadd vzero keqb_eq).
      apply (in_map fst) in H. exact H.
    + apply (groupby_sum_value keqb kleb vadd vzero keqb_eq), H.
  - intros [Hk ->].
    apply (groupby_sum_keys keqb kleb vadd vzero keqb_eq) in Hk.
    apply in_map_iff in Hk. destruct Hk as [[k' v'] [E Hin]].
    cbn [fst] in E. subst k'.
    rewrite <- (groupby_sum_value keqb kleb vadd vzero keqb_eq _ _ _ Hin).
    exact Hin.
Qed.
End KeyOrder.

Lemma string_groupby_panel (key : ERow -> string) (rows : list ERow) :
  let panel := groupby_sum String.eqb String.leb Qplus 0%Q
                 (map (fun r => (key r, revenue r)) rows) in
  StronglySorted (fun a b => String.compare (fst a) (fst b) = Lt) panel /\
  forall c v,
    In (c, v) panel <->
    (exists r, In r rows /\ key r = c) /\
    v = sumQ (map revenue (filter (fun r => String.eqb (key r) c) rows)).
Proof.
  intro panel. split.
  - apply StronglySorted_weaken
      with (fun a b : string * Q =>
              String.leb (fst a) (fst b) = true /\ fst a <> fst b).
    + intros a b [Hle Hne]. unfold String.leb in Hle.
      destruct (String.compare (fst a) (fst b)) eqn:E;
        [apply String.compare_eq_iff in E; contradiction
        |reflexivity | discriminate].
    + apply groupby_sum_sorted.
      * apply String.eqb_eq.
      * apply string_leb_total.
      * apply string_leb_trans.
  - intros c v. unfold panel.
    rewrite (groupby_sum_In _ _ _ _ String.eqb_eq).
    rewrite filter_map_comm, !map_map, in_map_iff. cbn [fst snd].
    unfold sumQ. split; intros [[r [H1 H2]] H3]; (split; [exists r; auto|auto]).
Qed.

(** X8: the category and region panels list each category (region) of the view
    once, in increasing order of the name, with the summed revenue of its
    rows, and list nothing else. *)
Theorem category_and_region_panels (view : Frame) :
  StronglySorted (fun a b => String.compare (fst a) (fst b) = Lt)
                 (category_revenue view) /\
  (forall c v,
     In (c, v) (category_revenue view) <->
     (exists r, In r (body view) /\ Category (base r) = c) /\
     v = sumQ (map revenue (rows_of_category view c))) /\
  StronglySorted (fun a b => String.compare (fst a) (fst b) = Lt)
                 (market_share view) /\
  (forall g v,
     In (g, v) (market_share view) <->
     (exists r, In r (body view) /\ geo_region (base r) = g) /\
     v = sumQ (map revenue (rows_of_region view g))).
Proof.
  destruct (string_groupby_panel (fun r => Category (base r)) (body view))
    as [H1 H2].
  destruct (string_groupby_panel (fun r => geo_region (base r)) (body view))
    as [H3 H4].
  split; [exact H1|]. split; [exact H2|]. split; [exact H3 | exact H4].
Qed.

Lemma region_revenue_total (a b : (string * string) * Q) :
  (match String.compare (fst (fst a)) (fst (fst b)) with
   | Lt => true
   | Eq => Qle_bool (snd b) (snd a)
   | Gt => false
   end) = false ->
  (match String.compare (fst (fst b)) (fst (fst a)) with
   | Lt => true
   | Eq => Qle_bool (snd a) (snd b)
   | Gt => false
   end) = true.
Proof.
  rewrite (String.compare_antisym (fst (fst b)) (fst (fst a))).
  destruct (String.compare (fst (fst a)) (fst (fst b))); cbn;
    [apply Qge_bool_total | discriminate | reflexivity].
Qed.

Lemma region_revenue_trans (a b c : (string * string) * Q) :
  (match String.compare (fst (fst a)) (fst (fst b)) with
   | Lt => true
   | Eq => Qle_bool (snd b) (snd a)
   | Gt => false
   end) = true ->
  (match String.compare (fst (fst b)) (fst (fst c)) with
   | Lt => true
   | Eq => Qle_bool (snd c) (snd b)
   | Gt => false
   end) = true ->
  (match String.compare (fst (fst a)) (fst (fst c)) with
   | Lt => true
   | Eq => Qle_bool (snd c) (snd a)
   | Gt => false
   end) = true.
Proof.
  destruct (String.compare (fst (fst a)) (fst (fst b))) eqn:E1;
    try discriminate;
    destruct (String.compare (fst (fst b)) (fst (fst c))) eqn:E2;
    try discriminate; intros H1 H2.
  - apply String.compare_eq_iff in E1, E2. rewrite E1, E2.
    rewrite string_compare_refl.
    apply Qge_bool_trans with (snd b); assumption.
  - apply String.compare_eq_iff in E1. rewrite E1, E2. reflexivity.
  - apply String.compare_eq_iff in E2. rewrite <- E2, E1. reflexivity.
  - rewrite (string_compare_lt_trans _ _ _ E1 E2). reflexivity.
Qed.

(** X9: the apps panel has one row per (region, app) pair of the view, with
    the summed revenue of the pair's rows; the rows are ordered by region
    name and, within a region, by revenue from largest to smallest. *)
Theorem top_apps_region_order (view : Frame) :
  StronglySorted region_then_revenue (top_apps_region view) /\
  NoDup (map fst (top_apps_region view)) /\
  forall k v,
    In (k, v) (top_apps_region view) <->
    (exists r, In r (body view) /\
               (geo_region (base r), App_Name (base r)) = k) /\
    v = sumQ (map revenue (rows_of_app view k)).
Proof.
  unfold top_apps_region. split; [|split].
  - eapply StronglySorted_weaken; [|apply stable_sort_sorted].
    + intros a b H. cbv beta in H. unfold region_then_revenue.
      destruct (String.compare (fst (fst a)) (fst (fst b))) eqn:E.
      * right. split; [apply String.compare_eq_iff, E|].
        apply Qle_bool_iff, H.
      * left. reflexivity.
      * discriminate H.
    + apply region_revenue_total.
    + apply region_revenue_trans.
  - eapply Permutation_NoDup.
    + apply Permutation_map, Permutation_sym, stable_sort_perm.
    + apply (groupby_sum_NoDup _ _ _ _ pair_eqb_eq).
  - intros k v. rewrite stable_sort_In.
    rewrite (groupby_sum_In _ _ _ _ pair_eqb_eq).
    rewrite filter_map_comm, !map_map, in_map_iff. cbn [fst snd].
    unfold sumQ, rows_of_app.
    split; intros [[r [H1 H2]] H3]; (split; [exists r; auto|auto]).
Qed.

(* ------------------------------------------------------------------ *)
(** ** Zone panel, continued *)

Lemma sumZ_map_add {A : Type} (f g : A -> Z) (l : list A) :
  sumZ (map (fun x => f x + g x) l) = sumZ (map f l) + sumZ (map g l).
Proof.
  unfold sumZ. induction l as [|x l IH]; cbn [map fold_right]; lia.
Qed.

Lemma sumZ_b2z_count {A : Type} (f : A -> bool) (l : list A) :
  sumZ (map (fun x => Z.b2z (f x)) l) = Z.of_nat (List.length (filter f l)).
Proof.
  unfold sumZ. induction l as [|x l IH]; cbn [map fold_right filter].
  - reflexivity.
  - rewrite IH. destruct (f x); cbn [Z.b2z List.length]; lia.
Qed.

(** When every row has a true cell in exactly one of the columns, the
    column counts add up to the number of rows. *)
Lemma one_hot_counts {R C : Type} (f : C -> R -> bool) (cols : list C)
  (rows : list R) :
  NoDup cols ->
  (forall r, In r rows ->
     exists c0, In c0 cols /\ forall c, In c cols -> (f c r = true <-> c = c0)) ->
  sumZ (map (fun c => Z.of_nat (List.length (filter (f c) rows))) cols) =
  Z.of_nat (List.length rows).
Proof.
  intros Hnd. induction rows as [|r rows IH]; intro H.
  - cbn [filter List.length]. unfold sumZ. clear Hnd H.
    induction cols as [|c cols IHc]; cbn [map fold_right]; [reflexivity|].
    rewrite IHc. reflexivity.
  - assert (E : map (fun c => Z.of_nat (List.length (filter (f c) (r :: rows))))
                    cols =
                map (fun c => Z.b2z (f c r) +
                              Z.of_nat (List.length (filter (f c) rows)))
                    cols).
    { apply map_ext. intro c. cbn [filter].
      destruct (f c r); cbn [Z.b2z List.length]; lia. }
    rewrite E, sumZ_map_add, IH.
    + rewrite sumZ_b2z_count.
      destruct (H r (or_introl eq_refl)) as [c0 [Hc0 Huniq]].
      rewrite (filter_singleton _ _ c0 Hnd Hc0 Huniq).
      cbn [List.length]. lia.
    + intros r' Hr'. apply H. right; exact Hr'.
Qed.

(** X10: with the zone column in the table, the bars of the zone panel add up
    to the number of rows of the view: every row is counted in exactly one
    bar. *)
Theorem zone_bars_count_every_row (recs : list (Row * string))
  (sel : Selection) :
  sumZ (map snd (zone_revenue (df_filtered (enrich (WithZone recs)) sel))) =
  Z.of_nat (List.length (body (df_filtered (enrich (WithZone recs)) sel))).
Proof.
  unfold zone_revenue. rewrite zone_revenue_cols_enriched, !map_map.
  cbn [snd]. unfold sum_flags.
  rewrite <- (map_map (String.append zone_prefix)
                (fun c => Z.of_nat
                            (List.length
                               (filter (flag c)
                                  (body (df_filtered (enrich (WithZone recs))
                                           sel)))))).
  apply one_hot_counts.
  - apply append_prefix_inj_NoDup, dummy_values_NoDup.
  - intros r Hr. cbn [body df_filtered enrich] in Hr.
    apply filter_In in Hr. destruct Hr as [Hr _].
    apply in_map_iff in Hr. destruct Hr as [[r0 z] [<- Hrz]].
    assert (Hz : In z (dummy_values (map snd recs))).
    { apply dummy_values_In. apply (in_map snd) in Hrz. exact Hrz. }
    exists (zone_prefix ++ z). split.
    + apply (in_map (String.append zone_prefix)), Hz.
    + intros c _. rewrite flag_enrich_zoned. tauto.
Qed.

Lemma prefix_append (p v : string) : String.prefix p (p ++ v) = true.
Proof.
  induction p as [|c p IH]; cbn.
  - destruct v; reflexivity.
  - destruct (ascii_dec c c) as [_|N]; [exact IH | contradiction].
Qed.

Lemma remove_all_from_skip (pat s v : string) :
  remove_all_from pat (s ++ v) (String.length s) = remove_all_from pat v O.
Proof.
  induction s as [|c s IH]; cbn [String.append String.length].
  - reflexivity.
  - cbn [remove_all_from]. exact IH.
Qed.

Lemma remove_all_from_absent (pat v : string) :
  contains pat v = false -> remove_all_from pat v O = v.
Proof.
  induction v as [|c v IH]; cbn [contains remove_all_from].
  - reflexivity.
  - rewrite orb_false_iff. intros [H1 H2].
    change (String.prefix pat (String c v)) with
      (String.prefix pat (String c v)) in H1.
    rewrite H1, (IH H2). reflexivity.
Qed.

Lemma str_remove_prefix (c : ascii) (p v : string) :
  contains (String c p) v = false ->
  str_remove (String c p) (String c p ++ v) = v.
Proof.
  intro H. unfold str_remove. cbn [String.append remove_all_from].
  pose proof (prefix_append (String c p) v) as Hp.
  cbn [String.append] in Hp. rewrite Hp.
  cbn [String.length Nat.pred].
  rewrite remove_all_from_skip. apply remove_all_from_absent, H.
Qed.

(** X11: the labels of the zone panel are the zone values of the table, in
    increasing order, as long as no zone value contains the text
    "economic_zone_" itself. *)
Theorem zone_panel_labels (recs : list (Row * string)) (sel : Selection) :
  (forall rz, In rz recs -> contains zone_prefix (snd rz) = false) ->
  map fst (zone_revenue (df_filtered (enrich (WithZone recs)) sel)) =
  dummy_values (map snd recs).
Proof.
  intro H. unfold zone_revenue.
  rewrite zone_revenue_cols_enriched, !map_map. cbn [fst].
  rewrite <- (map_id (dummy_values (map snd recs))) at 2.
  apply map_ext_in. intros v Hv.
  apply dummy_values_In, in_map_iff in Hv. destruct Hv as [rz [<- Hrz]].
  apply (str_remove_prefix "e" "conomic_zone_"), H, Hrz.
Qed.

Lemma zone_panel_labels_witness :
  map fst (zone_revenue
             (df_filtered (enrich scenario_table)
                (select_all ["Games"] ["NA"; "EU"]))) =
  ["Developed"; "Emerging"].
Proof.
  apply (zone_panel_labels
           [ (mkRow "Games" "App A" "Dev A" "NA" 100 0 (9 # 2)
                    (mkTimestamp 2021 1 1 0), "Developed");
             (mkRow "Games" "App B" "Dev B" "EU" 10 5 3
                    (mkTimestamp 2022 6 1 0), "Emerging") ]).
  intros rz [<-|[<-|[]]]; reflexivity.
Defined.

(* ------------------------------------------------------------------ *)
(** ** KPI tiles *)

Lemma wrap64_range (z : Z) : - 2 ^ 63 <= wrap64 z < 2 ^ 63.
Proof.
  unfold wrap64.
  pose proof (Z.mod_pos_bound (z + 2 ^ 63) (2 ^ 64) eq_refl). lia.
Qed.

Lemma wrap64_small (z : Z) : - 2 ^ 63 <= z < 2 ^ 63 -> wrap64 z = z.
Proof.
  intro H. unfold wrap64. rewrite Z.mod_small; lia.
Qed.

Lemma wrap64_add_l (a b : Z) : wrap64 (wrap64 a + b) = wrap64 (a + b).
Proof.
  unfold wrap64.
  replace ((a + 2 ^ 63) mod 2 ^ 64 - 2 ^ 63 + b + 2 ^ 63)
    with ((a + 2 ^ 63) mod 2 ^ 64 + b) by lia.
  rewrite Zplus_mod_idemp_l. f_equal. f_equal. lia.
Qed.

Lemma fold_int64_add (l : list Z) :
  forall a, fold_left int64_add l (wrap64 a) = wrap64 (a + sumZ l).
Proof.
  unfold sumZ. induction l as [|x l IH]; intro a; cbn [fold_left fold_right].
  - f_equal. lia.
  - unfold int64_add at 2. rewrite wrap64_add_l, IH. f_equal. lia.
Qed.

(** X5: the installs tile is the sum of the Installs cells reduced to the
    [int64] range: it differs from the true sum by a multiple of 2^64, and
    equals it whenever the true sum fits in 64 bits. *)
Theorem total_installs_wraps (view : Frame) :
  let true_sum := sumZ (map (fun r => Installs (base r)) (body view)) in
  total_installs view = wrap64 true_sum /\
  - 2 ^ 63 <= total_installs view < 2 ^ 63 /\
  (total_installs view - true_sum) mod 2 ^ 64 = 0 /\
  (- 2 ^ 63 <= true_sum < 2 ^ 63 -> total_installs view = true_sum).
Proof.
  intro true_sum.
  assert (E : total_installs view = wrap64 true_sum).
  { unfold total_installs, sum_int64.
    change 0 with (wrap64 0) at 1. rewrite fold_int64_add. reflexivity. }
  split; [exact E|]. split; [rewrite E; apply wrap64_range|]. split.
  - rewrite E. unfold wrap64.
    rewrite (Z.mod_eq (true_sum + 2 ^ 63) (2 ^ 64)) by lia.
    replace (true_sum + 2 ^ 63 - 2 ^ 64 * ((true_sum + 2 ^ 63) / 2 ^ 64)
             - 2 ^ 63 - true_sum)
      with (- ((true_sum + 2 ^ 63) / 2 ^ 64) * 2 ^ 64) by lia.
    apply Z.mod_mul. lia.
  - intro H. rewrite E. apply wrap64_small, H.
Qed.

Lemma total_installs_wraps_witness :
  total_installs (df_filtered (enrich scenario_table)
                    (select_all ["Games"] ["NA"; "EU"])) = 110.
Proof.
  apply (proj2 (proj2 (proj2 (total_installs_wraps
           (df_filtered (enrich scenario_table)
              (select_all ["Games"] ["NA"; "EU"])))))).
  split; vm_compute; [discriminate | reflexivity].
Defined.

(* ------------------------------------------------------------------ *)
(** ** Top developers, continued *)

(** X19: the developers panel lists ten developers, or every developer of the
    view when there are at most ten: its length is the smaller of 10 and
    the number of distinct developers. *)
Theorem top_devs_length (view : Frame) :
  List.length (top_devs view) =
    Nat.min 10 (List.length
                  (unique (map (fun r => Developer_Id (base r)) (body view)))) /\
  ((List.length (unique (map (fun r => Developer_Id (base r)) (body view)))
    <= 10)%nat ->
   Permutation (top_devs view) (developer_revenue view)).
Proof.
  assert (Hlen : List.length (developer_revenue view) =
                 List.length
                   (unique (map (fun r => Developer_Id (base r)) (body view)))).
  { rewrite <- (length_map fst (developer_revenue view)).
    apply Permutation_length, NoDup_Permutation.
    - apply (groupby_sum_NoDup _ _ _ _ String.eqb_eq).
    - apply unique_NoDup.
    - intro d. rewrite unique_In. unfold developer_revenue.
      rewrite (groupby_sum_keys _ _ _ _ String.eqb_eq), map_map.
      reflexivity. }
  unfold top_devs, nlargest. split.
  - rewrite length_firstn, stable_sort_length, Hlen. reflexivity.
  - intro H. rewrite firstn_all2.
    + apply stable_sort_perm.
    + rewrite stable_sort_length, Hlen. exact H.
Qed.

Lemma top_devs_length_witness :
  Permutation
    (top_devs (df_filtered (enrich scenario_table)
                 (select_all ["Games"] ["NA"; "EU"])))
    (developer_revenue (df_filtered (enrich scenario_table)
                          (select_all ["Games"] ["NA"; "EU"]))).
Proof.
  apply (proj2 (top_devs_length _)). vm_compute. lia.
Defined.

(* ------------------------------------------------------------------ *)
(** ** Revenue growth, continued *)

Lemma pct_change_from_In {K : Type} (s : list (K * Q)) :
  forall prev k g,
    In (k, g) (pct_change_from prev s) ->
    exists v v', (v = prev \/ In v (map snd s)) /\ In v' (map snd s) /\
                 g = fsub (fdiv v' v) 1.
Proof.
  induction s as [|[k0 v0] s IH]; intros prev k g H; [destruct H|].
  cbn [pct_change_from] in H. destruct H as [H|H].
  - inversion H; subst. exists prev, v0. cbn. auto.
  - destruct (IH v0 k g H) as [v [v' [Hv [Hv' Hg]]]].
    exists v, v'. cbn [map snd In]. split; [|split; [right; exact Hv'|exact Hg]].
    right. destruct Hv as [->|Hv]; [left; reflexivity | right; exact Hv].
Qed.

Lemma growth_series_In (s : list (Z * Q)) (y : Z) (g : F64) :
  In (y, g) (growth_series s) ->
  g = Fin 0 \/
  exists v v', In v (map snd s) /\ In v' (map snd s) /\
               g = fscale (fillna 0 (fsub (fdiv v' v) 1)) 100.
Proof.
  unfold growth_series. rewrite in_map_iff.
  intros [[y0 g0] [E H]]. cbn [fst snd] in E. inversion E; subst. clear E.
  destruct s as [|[y1 v1] s]; [destruct H|].
  cbn [pct_change] in H. destruct H as [H|H].
  - inversion H; subst. left. reflexivity.
  - right. apply pct_change_from_In in H.
    destruct H as [v [v' [Hv [Hv' ->]]]]. exists v, v'.
    cbn [map snd In]. split; [|split; [right; exact Hv' | reflexivity]].
    destruct Hv as [->|Hv]; [left; reflexivity | right; exact Hv].
Qed.

(** X12: the growth line never shows NaN.  After a year without revenue it
    shows 0 when the next year has none either and an infinite value
    otherwise; and when no row of the view has negative revenue, every
    point of the line is plus infinity or a finite value of at least
    -100. *)
Theorem growth_series_range :
  (forall s y g, In (y, g) (growth_series s) -> g <> NaN) /\
  (forall s i y v y' v',
     nth_error s i = Some (y, v) ->
     nth_error s (S i) = Some (y', v') ->
     (v == 0)%Q ->
     nth_error (growth_series s) (S i) =
       Some (y', if Qeq_bool v' 0 then Fin 0
                 else if Qle_bool 0 v' then PosInf else NegInf)) /\
  (forall view,
     (forall r, In r (body view) -> (0 <= revenue r)%Q) ->
     forall y g, In (y, g) (yearly_growth view) ->
                 g = PosInf \/ exists x, g = Fin x /\ (- (100) <= x)%Q).
Proof.
  split; [|split].
  - intros s y g H. apply growth_series_In in H.
    destruct H as [->|[v [v' [_ [_ ->]]]]]; [discriminate|].
    unfold fdiv.
    destruct (Qeq_bool v 0); [destruct (Qeq_bool v' 0);
                               [|destruct (Qle_bool 0 v')]|]; discriminate.
  - intros s i y v y' v' H1 H2 Hv.
    rewrite (growth_series_next s i y v y' v' H1 H2). f_equal. f_equal.
    unfold fdiv. rewrite (Qeq_eq_bool _ _ Hv).
    destruct (Qeq_bool v' 0); [reflexivity|].
    destruct (Qle_bool 0 v'); reflexivity.
  - intros view Hpos y g H.
    assert (Hyr : forall v, In v (map snd (yearly_revenue view)) -> (0 <= v)%Q).
    { intros v Hv. apply in_map_iff in Hv. destruct Hv as [[y0 v0] [<- Hin]].
      cbn [snd]. rewrite (yearly_revenue_value view y0 v0 Hin).
      assert (HF : Forall (fun x => (0 <= x <= x)%Q)
                          (map revenue (rows_of_year view y0))).
      { apply Forall_forall. intros x Hx. apply in_map_iff in Hx.
        destruct Hx as [r [<- Hr]]. apply filter_In in Hr.
        split; [apply Hpos, Hr | apply Qle_refl]. }
      clear Hin. induction (map revenue (rows_of_year view y0)) as [|x l IH].
      - discriminate.
      - rewrite sumQ_cons. inversion HF as [|? ? [Hx _] HF']; subst.
        specialize (IH HF'). lra. }
    apply growth_series_In in H.
    destruct H as [->|[v [v' [Hv [Hv' ->]]]]].
    + right. exists 0%Q. split; [reflexivity | discriminate].
    + pose proof (Hyr v Hv) as Hv0. pose proof (Hyr v' Hv') as Hv'0.
      unfold fdiv. destruct (Qeq_bool v 0) eqn:E.
      * destruct (Qeq_bool v' 0) eqn:E'.
        -- right. exists (0 * 100)%Q. split; [reflexivity | discriminate].
        -- apply Qle_bool_iff in Hv'0. rewrite Hv'0. left. reflexivity.
      * right. eexists. split; [reflexivity|].
        apply Qeq_bool_neq in E.
        assert (Hpv : (0 < v)%Q).
        { destruct (Qlt_le_dec 0 v) as [Hlt|Hle]; [exact Hlt|].
          exfalso. apply E. lra. }
        assert (Hdiv : (0 <= v' / v)%Q).
        { apply Qle_shift_div_l; [exact Hpv | lra]. }
        lra.
Qed.

Lemma growth_series_range_witness :
  nth_error (growth_series [(2020, 0%Q); (2021, 50%Q)]) 1 =
    Some (2021, PosInf).
Proof.
  apply (proj1 (proj2 growth_series_range)
           [(2020, 0%Q); (2021, 50%Q)] 0%nat 2020 0%Q 2021 50%Q);
    reflexivity.
Defined.

(* ------------------------------------------------------------------ *)
(** ** Indicator columns *)

Lemma strictly_sorted_strings (l : list string) :
  StronglySorted (fun a b => String.leb a b = true) l ->
  NoDup l ->
  StronglySorted (fun a b => String.compare a b = Lt) l.
Proof.
  induction 1 as [|a l _ IH Ha]; intro Hnd; constructor.
  - apply IH. inversion Hnd; assumption.
  - inversion Hnd as [|? ? Hnot _]; subst.
    rewrite Forall_forall in *. intros b Hb.
    pose proof (Ha b Hb) as Hle. unfold String.leb in Hle.
    destruct (String.compare a b) eqn:E;
      [|reflexivity | discriminate].
    apply String.compare_eq_iff in E. subst. contradiction.
Qed.

(** X18: [pd.get_dummies] keeps the rows in place with their cells, adds one
    indicator column per distinct zone value of the table, named by the
    prefix and the value, in increasing order of the value, and gives
    every row a cell in each of these columns. *)
Theorem indicator_columns (recs : list (Row * string)) :
  let df := enrich (WithZone recs) in
  map base (body df) = map fst recs /\
  zone_dummies df =
    map (String.append zone_prefix) (dummy_values (map snd recs)) /\
  StronglySorted (fun a b => String.compare a b = Lt)
                 (dummy_values (map snd recs)) /\
  NoDup (zone_dummies df) /\
  (forall v, In (zone_prefix ++ v) (zone_dummies df) <->
             exists rz, In rz recs /\ snd rz = v) /\
  (forall r, In r (body df) -> map fst (flags r) = zone_dummies df).
Proof.
  intro df. unfold df. cbn [enrich body zone_dummies].
  split; [rewrite map_map; reflexivity|].
  split; [reflexivity|].
  split.
  { apply strictly_sorted_strings; [|apply dummy_values_NoDup].
    unfold dummy_values. apply stable_sort_sorted.
    - apply string_leb_total.
    - apply string_leb_trans. }
  split; [apply append_prefix_inj_NoDup, dummy_values_NoDup|].
  split.
  - intro v. rewrite in_map_iff. split.
    + intros [v' [E Hin]]. apply append_inj_r in E. subst v'.
      apply dummy_values_In, in_map_iff in Hin.
      destruct Hin as [rz [H1 H2]]. exists rz. auto.
    + intros [rz [Hin <-]]. exists (snd rz). split; [reflexivity|].
      apply dummy_values_In, in_map, Hin.
  - intros r Hr. apply in_map_iff in Hr. destruct Hr as [rz [<- _]].
    unfold enrich_zoned, dummy_cells. cbn [flags].
    rewrite map_map. reflexivity.
Qed.
